(** * Verification of the flow-controlled flash programmer of piksi_tools

    Shallow embedding of [src/flash.py]: the [Flash] thread object is a
    record, its methods are computations in a small state/exception monad
    (Python exceptions keep the mutations made before the raise), and the
    link collaborator is an event log that records every counter increment
    and every message sent. *)

From Stdlib Require Import ZArith List Lia Bool Relations.
From Stdlib Require Import Strings.Byte.
Import ListNotations.
Open Scope Z_scope.

(** ** Module constants of flash.py *)

Definition PAGESIZE : Z := 256.
Definition SECTORSIZE : Z := 64 * 1024.
Definition FLASHSIZE : Z := 1024 * 1024.
Definition ADDRS_PER_READ_CALLBACK : Z := 16.
Definition ADDRS_PER_WRITE_CALLBACK : Z := 128.
Definition PENDING_COMMANDS_LIMIT : Z := 20.

(** ** Integer helpers *)

Definition roundup_multiple (x multiple : Z) : Z :=
  if x mod multiple =? 0 then x else x + multiple - x mod multiple.

Definition rounddown_multiple (x multiple : Z) : Z :=
  if x mod multiple =? 0 then x else x - x mod multiple.

(** [int(ceil(float(x) / d))]: the float division by a power of two is
    exact for the 32-bit lengths that reach it, so this is the integer
    ceiling of [x / d]. *)
Definition ceil_div (x d : Z) : Z := - ((- x) / d).

(** Python's [range(start, stop, step)] for a positive [step]. *)
Definition py_range (start stop step : Z) : list Z :=
  map (fun k => start + step * Z.of_nat k)
      (seq 0 (Z.to_nat (ceil_div (stop - start) step))).

(** ** Bytes and the [struct] formats used by flash.py *)

Definition byte_of_Z (z : Z) : byte :=
  match Byte.of_N (Z.to_N (Z.land z 255)) with
  | Some b => b
  | None => x00
  end.

Definition Z_of_byte (b : byte) : Z := Z.of_N (Byte.to_N b).

Definition in_range (bits x : Z) : bool := (0 <=? x) && (x <? 2 ^ bits).

(** [struct.pack("<I", x)]; out of range raises [struct.error]. *)
Definition pack_le_u32 (x : Z) : option (list byte) :=
  if in_range 32 x
  then Some [byte_of_Z x; byte_of_Z (Z.shiftr x 8);
             byte_of_Z (Z.shiftr x 16); byte_of_Z (Z.shiftr x 24)]
  else None.

(** [struct.pack("B", x)]. *)
Definition pack_u8 (x : Z) : option (list byte) :=
  if in_range 8 x then Some [byte_of_Z x] else None.

(** [struct.pack("<II", a, b)]. *)
Definition pack_II (a b : Z) : option (list byte) :=
  match pack_le_u32 a, pack_le_u32 b with
  | Some pa, Some pb => Some (pa ++ pb)
  | _, _ => None
  end.

(** [struct.pack("<IB", a, b)]. *)
Definition pack_IB (a b : Z) : option (list byte) :=
  match pack_le_u32 a, pack_u8 b with
  | Some pa, Some pb => Some (pa ++ pb)
  | _, _ => None
  end.

(** [struct.unpack(">I", s)[0]]: exactly four bytes, big endian. *)
Definition unpack_be_u32 (s : list byte) : option Z :=
  match s with
  | [b0; b1; b2; b3] =>
      Some (Z.lor (Z.shiftl (Z_of_byte b0) 24)
             (Z.lor (Z.shiftl (Z_of_byte b1) 16)
               (Z.lor (Z.shiftl (Z_of_byte b2) 8) (Z_of_byte b3))))
  | _ => None
  end.

(** [list(struct.unpack(str(n) + "B", s))]: exactly [n] bytes. *)
Definition unpack_nB (n : Z) (s : list byte) : option (list Z) :=
  if Z.of_nat (length s) =? n then Some (map Z_of_byte s) else None.

(** ** The [Flash] object *)

(** A queued command: the (method name, arguments) tuples of
    [_command_queue], dispatched with [getattr]. *)
Inductive command :=
| Cmd_read (addr length : Z)
| Cmd_erase_sector (addr : Z)
| Cmd_write (addr : Z) (data : list byte).

(** Exceptions raised by the methods. *)
Inductive exn :=
| StructError
| IndexError
| DiscontinuousAddresses
| LengthMismatch.

(** What the object does to the outside: counter increments
    ([_add_to_expected_callbacks]) and [link.send_message] calls. *)
Inductive event :=
| AddExpected (num : Z)
| SendMessage (msg_type : Z) (payload : list byte).

Record Flash := mkFlash {
  command_queue : list command;
  wants_to_exit : bool;
  total_callbacks_expected : Z;
  done_callbacks_received : Z;
  read_callbacks_received : Z;
  rd_cb_addrs : list Z;
  rd_cb_lens : list Z;
  rd_cb_data : list Z;
  events : list event
}.

Definition set_command_queue q s :=
  mkFlash q (wants_to_exit s) (total_callbacks_expected s)
    (done_callbacks_received s) (read_callbacks_received s)
    (rd_cb_addrs s) (rd_cb_lens s) (rd_cb_data s) (events s).
Definition set_wants_to_exit b s :=
  mkFlash (command_queue s) b (total_callbacks_expected s)
    (done_callbacks_received s) (read_callbacks_received s)
    (rd_cb_addrs s) (rd_cb_lens s) (rd_cb_data s) (events s).
Definition set_total_callbacks_expected n s :=
  mkFlash (command_queue s) (wants_to_exit s) n
    (done_callbacks_received s) (read_callbacks_received s)
    (rd_cb_addrs s) (rd_cb_lens s) (rd_cb_data s) (events s).
Definition set_done_callbacks_received n s :=
  mkFlash (command_queue s) (wants_to_exit s) (total_callbacks_expected s)
    n (read_callbacks_received s)
    (rd_cb_addrs s) (rd_cb_lens s) (rd_cb_data s) (events s).
Definition set_read_callbacks_received n s :=
  mkFlash (command_queue s) (wants_to_exit s) (total_callbacks_expected s)
    (done_callbacks_received s) n
    (rd_cb_addrs s) (rd_cb_lens s) (rd_cb_data s) (events s).
Definition set_rd_cb_addrs l s :=
  mkFlash (command_queue s) (wants_to_exit s) (total_callbacks_expected s)
    (done_callbacks_received s) (read_callbacks_received s)
    l (rd_cb_lens s) (rd_cb_data s) (events s).
Definition set_rd_cb_lens l s :=
  mkFlash (command_queue s) (wants_to_exit s) (total_callbacks_expected s)
    (done_callbacks_received s) (read_callbacks_received s)
    (rd_cb_addrs s) l (rd_cb_data s) (events s).
Definition set_rd_cb_data l s :=
  mkFlash (command_queue s) (wants_to_exit s) (total_callbacks_expected s)
    (done_callbacks_received s) (read_callbacks_received s)
    (rd_cb_addrs s) (rd_cb_lens s) l (events s).
Definition log_event e s :=
  mkFlash (command_queue s) (wants_to_exit s) (total_callbacks_expected s)
    (done_callbacks_received s) (read_callbacks_received s)
    (rd_cb_addrs s) (rd_cb_lens s) (rd_cb_data s) (events s ++ [e]).

(** The initial object, right after [__init__]. *)
Definition init_flash : Flash := mkFlash [] false 0 0 0 [] [] [] [].

(** ** State and exception monad *)

Inductive outcome (A : Type) :=
| Ok (a : A) (s : Flash)
| Raise (e : exn) (s : Flash).
Arguments Ok {A}.
Arguments Raise {A}.

Definition M (A : Type) := Flash -> outcome A.

Definition ret {A} (a : A) : M A := fun s => Ok a s.
Definition bind {A B} (m : M A) (k : A -> M B) : M B :=
  fun s => match m s with
           | Ok a s' => k a s'
           | Raise e s' => Raise e s'
           end.
Definition get : M Flash := fun s => Ok s s.
Definition modify (f : Flash -> Flash) : M unit := fun s => Ok tt (f s).
Definition raise {A} (e : exn) : M A := fun s => Raise e s.
Definition lift_opt {A} (e : exn) (o : option A) : M A :=
  match o with Some a => ret a | None => raise e end.

Notation "x <- m ;; k" := (bind m (fun x => k))
  (at level 61, m at next level, right associativity).
Notation "m ;; k" := (bind m (fun _ => k))
  (at level 61, right associativity).

Fixpoint for_each {A} (l : list A) (body : A -> M unit) : M unit :=
  match l with
  | [] => ret tt
  | x :: l' => body x ;; for_each l' body
  end.

(** The state an outcome ends in, whether it returned or raised. *)
Definition final_state {A} (o : outcome A) : Flash :=
  match o with Ok _ s => s | Raise _ s => s end.

(** ** Methods of [Flash] *)

(** The link collaborator: [link.send_message(msg_type, payload)]. *)
Definition send_message (msg_type : Z) (payload : list byte) : M unit :=
  modify (log_event (SendMessage msg_type payload)).

Definition flash_operations_pending (s : Flash) : Z :=
  total_callbacks_expected s - done_callbacks_received s
  - read_callbacks_received s.

Definition flash_callbacks_left (s : Flash) : Z :=
  Z.of_nat (length (command_queue s)) + flash_operations_pending s.

(** Callback 0xF0: a flash erase or write is done. *)
Definition _flash_done_callback (data : list byte) : M unit :=
  modify (fun s => set_done_callbacks_received
                     (done_callbacks_received s + 1) s).

(** Callback 0xF1: 3 bytes address, 1 byte length, length bytes data. *)
Definition _flash_read_callback (data : list byte) : M unit :=
  addr <- lift_opt StructError (unpack_be_u32 (x00 :: firstn 3 data)) ;;
  modify (fun s => set_rd_cb_addrs (rd_cb_addrs s ++ [addr]) s) ;;
  b <- lift_opt IndexError (nth_error data 3) ;;
  modify (fun s => set_rd_cb_lens (rd_cb_lens s ++ [Z_of_byte b]) s) ;;
  s <- get ;;
  vals <- lift_opt StructError
            (unpack_nB (last (rd_cb_lens s) 0) (skipn 4 data)) ;;
  modify (fun s => set_rd_cb_data (rd_cb_data s ++ vals) s) ;;
  modify (fun s => set_read_callbacks_received
                     (read_callbacks_received s + 1) s).

(** [expected_addrs] built by the loop of [read_cb_sanity_check]:
    start from [[a0]] and append [expected_addrs[-1] + length] for every
    length of [rd_cb_lens[0:-1]]. *)
Definition expected_addrs_of (a0 : Z) (lens : list Z) : list Z :=
  fold_left (fun acc length => acc ++ [last acc 0 + length])
            (removelast lens) [a0].

Definition sum (l : list Z) : Z := fold_right Z.add 0 l.

Definition read_cb_sanity_check : M unit :=
  s <- get ;;
  a0 <- lift_opt IndexError (nth_error (rd_cb_addrs s) 0) ;;
  let expected_addrs := expected_addrs_of a0 (rd_cb_lens s) in
  if negb (if list_eq_dec Z.eq_dec (rd_cb_addrs s) expected_addrs
           then true else false)
  then raise DiscontinuousAddresses
  else if negb (sum (rd_cb_lens s) =? Z.of_nat (length (rd_cb_data s)))
  then raise LengthMismatch
  else ret tt.

Definition _schedule_command (c : command) : M unit :=
  modify (fun s => set_command_queue (command_queue s ++ [c]) s).

Definition stop : M unit := modify (set_wants_to_exit true).

Definition _add_to_expected_callbacks (num : Z) : M unit :=
  modify (fun s => log_event (AddExpected num)
                     (set_total_callbacks_expected
                        (total_callbacks_expected s + num) s)).

Definition read (addr length : Z) : M unit :=
  _schedule_command (Cmd_read addr length).

Definition _read (addr length : Z) : M unit :=
  modify (set_rd_cb_addrs []) ;;
  modify (set_rd_cb_lens []) ;;
  modify (set_rd_cb_data []) ;;
  msg_buf <- lift_opt StructError (pack_II addr length) ;;
  _add_to_expected_callbacks (ceil_div length ADDRS_PER_READ_CALLBACK) ;;
  send_message 241 msg_buf.

Definition erase_sector (addr : Z) : M unit :=
  _schedule_command (Cmd_erase_sector addr).

Definition _erase_sector (addr : Z) : M unit :=
  msg_buf <- lift_opt StructError (pack_le_u32 addr) ;;
  _add_to_expected_callbacks 1 ;;
  send_message 242 msg_buf.

Definition write (addr : Z) (data : list byte) : M unit :=
  _schedule_command (Cmd_write addr data).

(** One write message: header [struct.pack("<IB", addr, len(chunk))],
    one expected callback, then the send. *)
Definition send_write_chunk (addr : Z) (chunk : list byte) : M unit :=
  msg_header <- lift_opt StructError
                  (pack_IB addr (Z.of_nat (length chunk))) ;;
  _add_to_expected_callbacks 1 ;;
  send_message 240 (msg_header ++ chunk).

(** The [while len(data) > ADDRS_PER_WRITE_CALLBACK] loop of [_write],
    followed by the send of the remainder; [fuel] bounds the iterations
    (each one removes 128 bytes, so [length data] is always enough). *)
Fixpoint write_loop (fuel : nat) (addr : Z) (data : list byte) : M unit :=
  match fuel with
  | O => send_write_chunk addr data
  | S fuel' =>
      if Z.of_nat (length data) >? ADDRS_PER_WRITE_CALLBACK then
        send_write_chunk addr
          (firstn (Z.to_nat ADDRS_PER_WRITE_CALLBACK) data) ;;
        write_loop fuel' (addr + ADDRS_PER_WRITE_CALLBACK)
          (skipn (Z.to_nat ADDRS_PER_WRITE_CALLBACK) data)
      else send_write_chunk addr data
  end.

Definition _write (addr : Z) (data : list byte) : M unit :=
  write_loop (length data) addr data.

(** [cmd_func = getattr(self, cmd); cmd_func( *args)]. *)
Definition dispatch (c : command) : M unit :=
  match c with
  | Cmd_read addr length => _read addr length
  | Cmd_erase_sector addr => _erase_sector addr
  | Cmd_write addr data => _write addr data
  end.

(** One iteration of the [while not self._wants_to_exit] loop of [run];
    returns [false] when the loop exits. The [else] branch is
    [time.sleep(0.001)]. *)
Definition run_step : M bool :=
  s <- get ;;
  if wants_to_exit s then ret false
  else if negb (Nat.eqb (length (command_queue s)) 0)
          && (flash_operations_pending s <? PENDING_COMMANDS_LIMIT)
  then match command_queue s with
       | c :: rest => modify (set_command_queue rest) ;; dispatch c ;; ret true
       | [] => ret true
       end
  else ret true.

(** ** The image loader *)

(** The parsed IntelHex file (an external library): its lowest and
    highest address and [tobinstr(start=..., size=...)]. *)
Record IntelHex := mkIntelHex {
  minaddr : Z;
  maxaddr : Z;
  tobinstr : Z -> Z -> list byte
}.

Definition write_ihx (ihx : IntelHex) : M unit :=
  let min_sector := rounddown_multiple (minaddr ihx) SECTORSIZE in
  let max_sector := roundup_multiple (maxaddr ihx) SECTORSIZE in
  for_each (py_range min_sector max_sector SECTORSIZE)
    (fun addr => erase_sector addr) ;;
  let min_page := rounddown_multiple (minaddr ihx) ADDRS_PER_WRITE_CALLBACK in
  let max_page := roundup_multiple (maxaddr ihx) ADDRS_PER_WRITE_CALLBACK in
  for_each (py_range min_page max_page ADDRS_PER_WRITE_CALLBACK)
    (fun addr => write addr (tobinstr ihx addr ADDRS_PER_WRITE_CALLBACK)).

(** ** Definitions used to state the properties *)

(** The value of a little-endian byte string. *)
Fixpoint le_value (bs : list byte) : Z :=
  match bs with
  | [] => 0
  | b :: bs' => Z_of_byte b + 256 * le_value bs'
  end.

(** The value of a big-endian byte string. *)
Definition be_value (bs : list byte) : Z := le_value (rev bs).

(** Fields of a write request: address, length byte, data bytes. *)
Definition wr_addr (p : list byte) : Z := le_value (firstn 4 p).
Definition wr_len (p : list byte) : Z := Z_of_byte (nth 4 p x00).
Definition wr_data (p : list byte) : list byte := skipn 5 p.

(** Consecutive write requests: each starts where the previous ended. *)
Fixpoint chained (a : Z) (ps : list (list byte)) : Prop :=
  match ps with
  | [] => True
  | p :: ps' => wr_addr p = a /\ chained (a + wr_len p) ps'
  end.

(** A well-formed write request: 4 address bytes, a length byte in
    0..128, then exactly that many data bytes. *)
Definition write_request_ok (p : list byte) : Prop :=
  (5 <= length p)%nat /\ 0 <= wr_len p <= ADDRS_PER_WRITE_CALLBACK /\
  wr_len p = Z.of_nat (length (wr_data p)).

(** The events of a sequence of messages of one type, each announced by
    an increment of [num]. *)
Definition announced (num msg_type : Z) (ps : list (list byte)) : list event :=
  concat (map (fun p => [AddExpected num; SendMessage msg_type p]) ps).

(** [s] after [n] more expected callbacks and the events [es]. *)
Definition bump (s : Flash) (n : Z) (es : list event) : Flash :=
  mkFlash (command_queue s) (wants_to_exit s) (total_callbacks_expected s + n)
    (done_callbacks_received s) (read_callbacks_received s)
    (rd_cb_addrs s) (rd_cb_lens s) (rd_cb_data s) (events s ++ es).

(** The completions one wire message of a command announces, and the
    message identifier it is sent with. *)
Definition completions_per_message (c : command) : Z :=
  match c with
  | Cmd_read _ length => ceil_div length ADDRS_PER_READ_CALLBACK
  | Cmd_erase_sector _ => 1
  | Cmd_write _ _ => 1
  end.

Definition message_id (c : command) : Z :=
  match c with
  | Cmd_read _ _ => 241
  | Cmd_erase_sector _ => 242
  | Cmd_write _ _ => 240
  end.

(** The number of wire messages a command emits when nothing fails. *)
Definition messages_of (c : command) : Z :=
  match c with
  | Cmd_read _ _ => 1
  | Cmd_erase_sector _ => 1
  | Cmd_write _ data =>
      Z.max 1 (ceil_div (Z.of_nat (length data)) ADDRS_PER_WRITE_CALLBACK)
  end.

(** The most a dispatched command can add to the pending count (a
    negative read length raises before anything is announced). *)
Definition cost (c : command) : Z :=
  Z.max 0 (completions_per_message c * messages_of c).

(** Fragments of a read, as (address, length) pairs, are contiguous:
    every consecutive pair has next.address = prev.address + prev.length. *)
Fixpoint contiguous (frs : list (Z * Z)) : Prop :=
  match frs with
  | (a, l) :: ((a', _) :: _) as rest => a' = a + l /\ contiguous rest
  | _ => True
  end.

(** The read accumulator of [s] replaced by the fragments [frs] and the
    data [d]. *)
Definition with_fragments (frs : list (Z * Z)) (d : list Z) (s : Flash) :=
  set_rd_cb_data d (set_rd_cb_lens (map snd frs)
                      (set_rd_cb_addrs (map fst frs) s)).

(** Commands whose fields fit their wire formats (32-bit addresses and
    lengths); [struct.pack] raises on the others. *)
Definition valid_command (c : command) : Prop :=
  match c with
  | Cmd_read addr length => 0 <= addr < 2 ^ 32 /\ 0 <= length < 2 ^ 32
  | Cmd_erase_sector addr => 0 <= addr < 2 ^ 32
  | Cmd_write addr data =>
      0 <= addr < 2 ^ 32 /\ addr + Z.of_nat (length data) <= 2 ^ 32
  end.

(** The address list [a, a + l0, a + l0 + l1, ...]: closed form of the
    [expected_addrs] loop. *)
Fixpoint cumulative (a : Z) (lens : list Z) : list Z :=
  match lens with
  | [] => [a]
  | l :: lens' => a :: cumulative (a + l) lens'
  end.

(** The two threads of the program: the dispatcher ([run]), client calls
    and the link's callbacks. *)
Inductive actor := Dispatcher | Client | Callback.

Inductive env_step : actor -> Flash -> Flash -> Prop :=
| Step_run s : env_step Dispatcher s (final_state (run_step s))
| Step_schedule c s : env_step Client s (final_state (_schedule_command c s))
| Step_stop s : env_step Client s (final_state (stop s))
| Step_check s : env_step Client s (final_state (read_cb_sanity_check s))
| Step_done_cb data s :
    env_step Callback s (final_state (_flash_done_callback data s))
| Step_read_cb data s :
    env_step Callback s (final_state (_flash_read_callback data s)).

(** Runs from a fresh object in which the device only calls back while
    some operation is outstanding. *)
Inductive acked_reachable : Flash -> Prop :=
| Reach_init : acked_reachable init_flash
| Reach_step a s s' :
    acked_reachable s -> env_step a s s' ->
    (a = Callback -> 0 < flash_operations_pending s) ->
    acked_reachable s'.

(** The counter invariant. *)
Definition counters_ok (s : Flash) : Prop :=
  done_callbacks_received s + read_callbacks_received s
  <= total_callbacks_expected s.

(** A read-response fragment as the device sends it: 3-byte big-endian
    address, one length byte, then the data. *)
Definition fragment_msg (addr : Z) (bs : list byte) : list byte :=
  [byte_of_Z (Z.shiftr addr 16); byte_of_Z (Z.shiftr addr 8); byte_of_Z addr;
   byte_of_Z (Z.of_nat (length bs))] ++ bs.

(** The (address, length) extent of a fragment given as (address, data). *)
Definition fragment_extent (f : Z * list byte) : Z * Z :=
  (fst f, Z.of_nat (length (snd f))).

(** The link delivering read-response frames, one callback per frame. *)
Definition deliver_fragments (msgs : list (list byte)) : M unit :=
  for_each msgs _flash_read_callback.

(** Runs from a fresh object (callbacks unrestricted) in which every
    command in the queue costs at most [K]. *)
Inductive run_with_costs (K : Z) : Flash -> Prop :=
| RC_init : run_with_costs K init_flash
| RC_step a s s' :
    run_with_costs K s -> env_step a s s' ->
    Forall (fun c => cost c <= K) (command_queue s') ->
    run_with_costs K s'.

(** Any step of the program, by any actor. *)
Definition any_step (s s' : Flash) : Prop := exists a, env_step a s s'.

(** ** Lemmas *)

(** *** Bytes *)

Lemma Z_of_byte_bounds b : 0 <= Z_of_byte b < 256.
Proof. unfold Z_of_byte. pose proof (Byte.to_N_bounded b). lia. Qed.

Lemma Z_of_byte_of_Z z : Z_of_byte (byte_of_Z z) = z mod 256.
Proof.
  unfold byte_of_Z, Z_of_byte.
  assert (Hl : Z.land z 255 = z mod 256)
    by (change 255 with (Z.ones 8); rewrite Z.land_ones by lia; reflexivity).
  rewrite Hl.
  pose proof (Z.mod_pos_bound z 256 ltac:(lia)) as Hb.
  pose proof (Byte.to_of_N_option_map (Z.to_N (z mod 256))) as Hm.
  destruct (Byte.of_N (Z.to_N (z mod 256))) as [b|] eqn:E.
  - apply Byte.to_of_N in E. rewrite E. lia.
  - simpl in Hm. destruct (N.leb_spec (Z.to_N (z mod 256)) 255); [discriminate|lia].
Qed.

Lemma Z_of_byte_small z : 0 <= z < 256 -> Z_of_byte (byte_of_Z z) = z.
Proof. intros. rewrite Z_of_byte_of_Z. apply Z.mod_small. lia. Qed.

Lemma le_value_le32 x :
  0 <= x < 2 ^ 32 ->
  le_value [byte_of_Z x; byte_of_Z (Z.shiftr x 8);
            byte_of_Z (Z.shiftr x 16); byte_of_Z (Z.shiftr x 24)] = x.
Proof.
  intros Hx. cbn [le_value]. rewrite !Z_of_byte_of_Z.
  rewrite !Z.shiftr_div_pow2 by lia.
  change (2 ^ 16) with (256 * 256). change (2 ^ 24) with (256 * 256 * 256).
  change (2 ^ 8) with 256.
  rewrite <- !Z.div_div by lia.
  rewrite (Z.mod_small (x / 256 / 256 / 256)).
  2:{ split; [apply Z.div_pos; [apply Z.div_pos; [apply Z.div_pos|]|]; lia|].
      rewrite !Z.div_div by lia. apply Z.div_lt_upper_bound; lia. }
  pose proof (Z.div_mod x 256). pose proof (Z.div_mod (x / 256) 256).
  pose proof (Z.div_mod (x / 256 / 256) 256). lia.
Qed.

Lemma pack_le_u32_ok x :
  0 <= x < 2 ^ 32 ->
  exists p, pack_le_u32 x = Some p /\ length p = 4%nat /\ le_value p = x.
Proof.
  intros Hx. unfold pack_le_u32, in_range.
  replace ((0 <=? x) && (x <? 2 ^ 32)) with true
    by (symmetry; apply andb_true_iff; split; [apply Z.leb_le|apply Z.ltb_lt]; lia).
  eexists; split; [reflexivity|]. split; [reflexivity|]. apply le_value_le32; auto.
Qed.

Lemma pack_le_u32_none x :
  ~ (0 <= x < 2 ^ 32) -> pack_le_u32 x = None.
Proof.
  intros Hx. unfold pack_le_u32, in_range.
  destruct (Z.leb_spec 0 x), (Z.ltb_spec x (2 ^ 32)); simpl; auto; lia.
Qed.

Lemma pack_u8_ok x :
  0 <= x < 256 -> pack_u8 x = Some [byte_of_Z x].
Proof.
  intros Hx. unfold pack_u8, in_range.
  replace ((0 <=? x) && (x <? 2 ^ 8)) with true; auto.
  symmetry; apply andb_true_iff; split; [apply Z.leb_le|apply Z.ltb_lt]; lia.
Qed.

Lemma lor_shiftl_small a b n :
  0 <= n -> 0 <= b < 2 ^ n -> Z.lor (Z.shiftl a n) b = a * 2 ^ n + b.
Proof.
  intros Hn Hb.
  assert (H0 : Z.land (Z.shiftl a n) b = 0).
  { apply Z.bits_inj'. intros i Hi. rewrite Z.land_spec, Z.bits_0.
    destruct (Z.lt_ge_cases i n).
    - rewrite Z.shiftl_spec_low by lia. reflexivity.
    - rewrite <- (Z.mod_small b (2 ^ n)) by lia.
      rewrite Z.mod_pow2_bits_high by lia. apply andb_false_r. }
  rewrite <- Z.lxor_lor, <- Z.add_nocarry_lxor by exact H0.
  rewrite Z.shiftl_mul_pow2 by lia. reflexivity.
Qed.

Lemma unpack_be_u32_3 b0 b1 b2 :
  unpack_be_u32 [x00; b0; b1; b2] = Some (be_value [b0; b1; b2]).
Proof.
  unfold unpack_be_u32, be_value. cbn [rev app le_value].
  pose proof (Z_of_byte_bounds b0). pose proof (Z_of_byte_bounds b1).
  pose proof (Z_of_byte_bounds b2).
  change (Z_of_byte x00) with 0. rewrite Z.shiftl_0_l, Z.lor_0_l.
  change (2 ^ 8) with 256 in *. change (2 ^ 16) with 65536 in *.
  rewrite (lor_shiftl_small (Z_of_byte b1) (Z_of_byte b2) 8)
    by (change (2 ^ 8) with 256; lia).
  rewrite lor_shiftl_small by (change (2 ^ 16) with 65536; lia).
  change (2 ^ 8) with 256. change (2 ^ 16) with 65536.
  f_equal. lia.
Qed.

Lemma be_value_3_bounds b0 b1 b2 : 0 <= be_value [b0; b1; b2] < 2 ^ 24.
Proof.
  unfold be_value. cbn [rev app le_value].
  pose proof (Z_of_byte_bounds b0). pose proof (Z_of_byte_bounds b1).
  pose proof (Z_of_byte_bounds b2). change (2 ^ 24) with 16777216. lia.
Qed.

(** *** Integer helpers *)

Lemma ceil_div_spec x d :
  0 < d -> d * (ceil_div x d - 1) < x <= d * ceil_div x d.
Proof.
  intros Hd. unfold ceil_div.
  pose proof (Z.div_mod (- x) d ltac:(lia)).
  pose proof (Z.mod_pos_bound (- x) d Hd). nia.
Qed.

Lemma ceil_div_nonneg x d : 0 < d -> 0 <= x -> 0 <= ceil_div x d.
Proof. intros Hd Hx. pose proof (ceil_div_spec x d Hd). nia. Qed.

Lemma rounddown_multiple_floor x m : 0 < m -> rounddown_multiple x m = m * (x / m).
Proof.
  intros Hm. unfold rounddown_multiple.
  pose proof (Z.div_mod x m ltac:(lia)).
  destruct (Z.eqb_spec (x mod m) 0); lia.
Qed.

Lemma roundup_multiple_ceil x m : 0 < m -> roundup_multiple x m = m * ceil_div x m.
Proof.
  intros Hm. unfold roundup_multiple, ceil_div.
  pose proof (Z.div_mod x m ltac:(lia)).
  destruct (Z.eqb_spec (x mod m) 0) as [E|E].
  - rewrite Z.div_opp_l_z by lia. lia.
  - rewrite Z.div_opp_l_nz by lia. lia.
Qed.

(** *** The monad *)

Ltac run_m :=
  cbv beta iota delta [bind modify ret get raise lift_opt].

Lemma bump_bump s n m es es' : bump (bump s n es) m es' = bump s (n + m) (es ++ es').
Proof. unfold bump; cbn. f_equal; [lia | rewrite app_assoc; reflexivity]. Qed.

Lemma bump_0 s : bump s 0 [] = s.
Proof. destruct s; unfold bump; cbn. f_equal; [lia | apply app_nil_r]. Qed.

Lemma add_then_send s num msg_type p :
  (_add_to_expected_callbacks num ;; send_message msg_type p) s =
  Ok tt (bump s num [AddExpected num; SendMessage msg_type p]).
Proof.
  unfold _add_to_expected_callbacks, send_message, log_event,
    set_total_callbacks_expected, bump. run_m. cbn.
  rewrite <- app_assoc. reflexivity.
Qed.

Lemma read_dispatch s addr len :
  0 <= addr < 2 ^ 32 -> 0 <= len < 2 ^ 32 ->
  exists msg_buf,
    dispatch (Cmd_read addr len) s =
      Ok tt (mkFlash (command_queue s) (wants_to_exit s)
               (total_callbacks_expected s + ceil_div len ADDRS_PER_READ_CALLBACK)
               (done_callbacks_received s) (read_callbacks_received s) [] [] []
               (events s ++ [AddExpected (ceil_div len ADDRS_PER_READ_CALLBACK);
                             SendMessage 241 msg_buf]))
    /\ length msg_buf = 8%nat
    /\ le_value (firstn 4 msg_buf) = addr /\ le_value (skipn 4 msg_buf) = len.
Proof.
  intros Ha Hl.
  destruct (pack_le_u32_ok addr Ha) as [pa [Pa [La Va]]].
  destruct (pack_le_u32_ok len Hl) as [pl [Pl [Ll Vl]]].
  exists (pa ++ pl). split; [|split; [|split]].
  - unfold dispatch, _read. unfold pack_II. rewrite Pa, Pl.
    unfold bind at 1 2 3 4, modify at 1 2 3, lift_opt at 1, ret at 1. cbn beta iota.
    rewrite add_then_send. reflexivity.
  - rewrite length_app, La, Ll. reflexivity.
  - rewrite firstn_app, La, firstn_all2 by lia. cbn. rewrite app_nil_r. exact Va.
  - rewrite skipn_app, La, skipn_all2 by lia. cbn. exact Vl.
Qed.

Lemma erase_dispatch s addr :
  0 <= addr < 2 ^ 32 ->
  exists msg_buf,
    dispatch (Cmd_erase_sector addr) s =
      Ok tt (bump s 1 [AddExpected 1; SendMessage 242 msg_buf])
    /\ length msg_buf = 4%nat /\ le_value msg_buf = addr.
Proof.
  intros Ha. destruct (pack_le_u32_ok addr Ha) as [pa [Pa [La Va]]].
  exists pa. split; [|split; auto].
  unfold dispatch, _erase_sector. rewrite Pa.
  unfold bind at 1, lift_opt, ret. apply add_then_send.
Qed.

Lemma read_callback_fragment s b0 b1 b2 b3 rest :
  Z_of_byte b3 = Z.of_nat (length rest) ->
  _flash_read_callback (b0 :: b1 :: b2 :: b3 :: rest) s =
  Ok tt (set_read_callbacks_received (read_callbacks_received s + 1)
          (set_rd_cb_data (rd_cb_data s ++ map Z_of_byte rest)
            (set_rd_cb_lens (rd_cb_lens s ++ [Z_of_byte b3])
              (set_rd_cb_addrs (rd_cb_addrs s ++ [be_value [b0; b1; b2]]) s)))).
Proof.
  intros Hlen. unfold _flash_read_callback. cbn [firstn nth_error skipn].
  rewrite unpack_be_u32_3. run_m.
  unfold unpack_nB. cbn [rd_cb_lens set_rd_cb_lens]. rewrite last_last.
  rewrite Hlen, Z.eqb_refl. cbn. reflexivity.
Qed.

Lemma read_callback_bad_length s b0 b1 b2 b3 rest :
  Z_of_byte b3 <> Z.of_nat (length rest) ->
  exists s', _flash_read_callback (b0 :: b1 :: b2 :: b3 :: rest) s = Raise StructError s'
    /\ read_callbacks_received s' = read_callbacks_received s
    /\ rd_cb_data s' = rd_cb_data s.
Proof.
  intros Hlen. unfold _flash_read_callback. cbn [firstn nth_error skipn].
  rewrite unpack_be_u32_3. run_m.
  unfold unpack_nB. cbn [rd_cb_lens set_rd_cb_lens]. rewrite last_last.
  destruct (Z.eqb_spec (Z.of_nat (length rest)) (Z_of_byte b3)); [lia|].
  cbn. eexists; split; [reflexivity|]. split; reflexivity.
Qed.

(** *** Write chunking *)

Lemma send_write_chunk_ok s addr chunk :
  0 <= addr < 2 ^ 32 -> (length chunk <= 128)%nat ->
  exists p, send_write_chunk addr chunk s =
              Ok tt (bump s 1 [AddExpected 1; SendMessage 240 p])
    /\ write_request_ok p /\ wr_addr p = addr /\ wr_data p = chunk.
Proof.
  intros Ha Hc. destruct (pack_le_u32_ok addr Ha) as [pa [Pa [La Va]]].
  assert (Hb : pack_u8 (Z.of_nat (length chunk)) = Some [byte_of_Z (Z.of_nat (length chunk))])
    by (apply pack_u8_ok; lia).
  exists (pa ++ [byte_of_Z (Z.of_nat (length chunk))] ++ chunk).
  assert (Hl : wr_len (pa ++ [byte_of_Z (Z.of_nat (length chunk))] ++ chunk)
               = Z.of_nat (length chunk)).
  { unfold wr_len. rewrite app_nth2 by lia. rewrite La. cbn.
    apply Z_of_byte_small. lia. }
  assert (Hd : wr_data (pa ++ [byte_of_Z (Z.of_nat (length chunk))] ++ chunk) = chunk).
  { unfold wr_data. rewrite skipn_app, La, skipn_all2 by lia. reflexivity. }
  split; [|split; [|split]].
  - unfold send_write_chunk, pack_IB. rewrite Pa, Hb.
    unfold bind at 1, lift_opt, ret. rewrite <- app_assoc. apply add_then_send.
  - unfold write_request_ok. rewrite Hl, Hd. split; [|split; [|reflexivity]].
    + rewrite !length_app, La. cbn. lia.
    + unfold ADDRS_PER_WRITE_CALLBACK. lia.
  - unfold wr_addr. rewrite firstn_app, La, firstn_all2 by lia. cbn.
    rewrite app_nil_r. exact Va.
  - exact Hd.
Qed.

Lemma send_write_chunk_fail s addr chunk :
  ~ (0 <= addr < 2 ^ 32) -> send_write_chunk addr chunk s = Raise StructError s.
Proof.
  intros Ha. unfold send_write_chunk, pack_IB. rewrite pack_le_u32_none by exact Ha.
  reflexivity.
Qed.

Lemma announced_cons num msg_type p ps :
  announced num msg_type (p :: ps)
  = [AddExpected num; SendMessage msg_type p] ++ announced num msg_type ps.
Proof. reflexivity. Qed.

Lemma announced_one num msg_type p :
  announced num msg_type [p] = [AddExpected num; SendMessage msg_type p].
Proof. reflexivity. Qed.

Lemma write_count_step len :
  128 < len ->
  1 + Z.max 1 (ceil_div (len - 128) 128) = Z.max 1 (ceil_div len 128).
Proof.
  intros H. pose proof (ceil_div_spec len 128 ltac:(lia)).
  pose proof (ceil_div_spec (len - 128) 128 ltac:(lia)). lia.
Qed.

Lemma write_count_last len :
  0 <= len <= 128 -> 1 = Z.max 1 (ceil_div len 128).
Proof. intros H. pose proof (ceil_div_spec len 128 ltac:(lia)). lia. Qed.

Lemma bump_announced_cons s p ps :
  bump (bump s 1 [AddExpected 1; SendMessage 240 p])
       (Z.of_nat (length ps)) (announced 1 240 ps)
  = bump s (Z.of_nat (length (p :: ps))) (announced 1 240 (p :: ps)).
Proof.
  rewrite bump_bump, announced_cons. f_equal. cbn [length]. lia.
Qed.

(** When every chunk address fits in 32 bits, the loop sends all of
    [data], in chunks of at most 128 bytes. *)
Lemma write_loop_sends fuel addr data s :
  Z.of_nat (length data) <= 128 * (Z.of_nat fuel + 1) ->
  0 <= addr < 2 ^ 32 -> addr + Z.of_nat (length data) <= 2 ^ 32 ->
  exists ps,
    write_loop fuel addr data s =
      Ok tt (bump s (Z.of_nat (length ps)) (announced 1 240 ps))
    /\ Forall write_request_ok ps /\ chained addr ps
    /\ concat (map wr_data ps) = data
    /\ Z.of_nat (length ps)
       = Z.max 1 (ceil_div (Z.of_nat (length data)) ADDRS_PER_WRITE_CALLBACK).
Proof.
  revert addr data s.
  induction fuel as [|fuel IH]; intros addr data s Hf Ha Hend.
  - destruct (send_write_chunk_ok s addr data Ha ltac:(lia)) as [p [E [Ok' [A D]]]].
    exists [p]. cbn [write_loop]. rewrite E, announced_one.
    split; [reflexivity|]. split; [constructor; auto|].
    split; [cbn [chained]; auto|].
    split; [cbn [map concat]; rewrite D, app_nil_r; reflexivity|].
    apply write_count_last. lia.
  - cbn [write_loop]. unfold ADDRS_PER_WRITE_CALLBACK at 1.
    destruct (Z.gtb_spec (Z.of_nat (length data)) 128) as [Hgt|Hle].
    + change (Z.to_nat ADDRS_PER_WRITE_CALLBACK) with 128%nat.
      assert (Hfl : length (firstn 128 data) = 128%nat)
        by (rewrite length_firstn; lia).
      assert (Hsl : Z.of_nat (length (skipn 128 data)) = Z.of_nat (length data) - 128)
        by (rewrite length_skipn; lia).
      destruct (send_write_chunk_ok s addr (firstn 128 data) Ha ltac:(lia))
        as [p [E [Ok' [A D]]]].
      destruct (IH (addr + ADDRS_PER_WRITE_CALLBACK) (skipn 128 data)
                  (bump s 1 [AddExpected 1; SendMessage 240 p]))
        as [ps [E' [Oks [C [Cat N]]]]];
        unfold ADDRS_PER_WRITE_CALLBACK in *; try lia.
      exists (p :: ps). unfold bind at 1. rewrite E, E', bump_announced_cons.
      split; [reflexivity|]. split; [constructor; auto|].
      split.
      { cbn [chained]. split; auto.
        replace (wr_len p) with 128; auto.
        destruct Ok' as [_ [_ L]]. rewrite L, D, Hfl. reflexivity. }
      split.
      { cbn [map concat]. rewrite D, Cat. apply firstn_skipn. }
      cbn [length]. rewrite Nat2Z.inj_succ, N, Hsl.
      rewrite <- (write_count_step (Z.of_nat (length data))) by lia. lia.
    + destruct (send_write_chunk_ok s addr data Ha ltac:(lia)) as [p [E [Ok' [A D]]]].
      exists [p]. rewrite E, announced_one.
      split; [reflexivity|]. split; [constructor; auto|].
      split; [cbn [chained]; auto|].
    split; [cbn [map concat]; rewrite D, app_nil_r; reflexivity|].
      apply write_count_last. lia.
Qed.

Lemma send_write_chunk_cases s addr chunk :
  (exists p, send_write_chunk addr chunk s =
               Ok tt (bump s 1 [AddExpected 1; SendMessage 240 p]))
  \/ send_write_chunk addr chunk s = Raise StructError s.
Proof.
  unfold send_write_chunk.
  destruct (pack_IB addr (Z.of_nat (length chunk))) as [h|].
  - left. exists (h ++ chunk). unfold bind at 1, lift_opt, ret. apply add_then_send.
  - right. reflexivity.
Qed.

(** Whatever happens, the loop announces and sends a prefix of its
    chunks, never more than [max 1 (ceil (len / 128))]. *)
Lemma write_loop_events fuel addr data s :
  exists ps,
    final_state (write_loop fuel addr data s)
      = bump s (Z.of_nat (length ps)) (announced 1 240 ps)
    /\ Z.of_nat (length ps)
       <= Z.max 1 (ceil_div (Z.of_nat (length data)) ADDRS_PER_WRITE_CALLBACK).
Proof.
  revert addr data s.
  induction fuel as [|fuel IH]; intros addr data s.
  - cbn [write_loop].
    destruct (send_write_chunk_cases s addr data) as [[p E]|E]; rewrite E.
    + exists [p]. rewrite announced_one. split; [reflexivity|].
      pose proof (ceil_div_spec (Z.of_nat (length data)) 128 ltac:(lia)).
      unfold ADDRS_PER_WRITE_CALLBACK. cbn [length]. lia.
    + exists []. split; [symmetry; apply bump_0|]. cbn [length].
      unfold ADDRS_PER_WRITE_CALLBACK. lia.
  - cbn [write_loop]. unfold ADDRS_PER_WRITE_CALLBACK at 1.
    destruct (Z.gtb_spec (Z.of_nat (length data)) 128) as [Hgt|Hle].
    + change (Z.to_nat ADDRS_PER_WRITE_CALLBACK) with 128%nat.
      assert (Hsl : Z.of_nat (length (skipn 128 data)) = Z.of_nat (length data) - 128)
        by (rewrite length_skipn; lia).
      destruct (send_write_chunk_cases s addr (firstn 128 data)) as [[p E]|E].
      * destruct (IH (addr + ADDRS_PER_WRITE_CALLBACK) (skipn 128 data)
                    (bump s 1 [AddExpected 1; SendMessage 240 p])) as [ps [E' N]].
        exists (p :: ps). unfold bind at 1. rewrite E, E', bump_announced_cons.
        split; [reflexivity|].
        rewrite Hsl in N. unfold ADDRS_PER_WRITE_CALLBACK in *.
        cbn [length]. rewrite Nat2Z.inj_succ.
        rewrite <- (write_count_step (Z.of_nat (length data))) by lia. lia.
      * exists []. unfold bind at 1. rewrite E.
        split; [symmetry; apply bump_0|]. cbn [length]. lia.
    + destruct (send_write_chunk_cases s addr data) as [[p E]|E]; rewrite E.
      * exists [p]. rewrite announced_one. split; [reflexivity|].
        pose proof (ceil_div_spec (Z.of_nat (length data)) 128 ltac:(lia)).
        unfold ADDRS_PER_WRITE_CALLBACK. cbn [length]. lia.
      * exists []. split; [symmetry; apply bump_0|]. cbn [length]. lia.
Qed.

(** *** Dispatching one command *)

(** The effect of any dispatch, failing or not: only the expected count,
    the events and (for a read) the accumulator change; the events are
    announced messages of the command's type. *)
Lemma dispatch_effect c s :
  exists ps,
    let s' := final_state (dispatch c s) in
    events s' = events s
                ++ announced (completions_per_message c) (message_id c) ps
    /\ total_callbacks_expected s'
       = total_callbacks_expected s
         + completions_per_message c * Z.of_nat (length ps)
    /\ Z.of_nat (length ps) <= messages_of c
    /\ 0 <= completions_per_message c * Z.of_nat (length ps)
    /\ command_queue s' = command_queue s
    /\ wants_to_exit s' = wants_to_exit s
    /\ done_callbacks_received s' = done_callbacks_received s
    /\ read_callbacks_received s' = read_callbacks_received s.
Proof.
  destruct c as [addr len|addr|addr data]; cbn [completions_per_message message_id messages_of].
  - destruct (Z.le_gt_cases 0 addr), (Z.lt_ge_cases addr (2 ^ 32)),
      (Z.le_gt_cases 0 len), (Z.lt_ge_cases len (2 ^ 32));
    try (exists []; unfold dispatch, _read, pack_II;
         rewrite ?(pack_le_u32_none addr) by lia;
         rewrite ?(pack_le_u32_none len) by lia;
         destruct (pack_le_u32 addr), (pack_le_u32 len);
         cbn; rewrite ?app_nil_r; repeat split; lia).
    destruct (read_dispatch s addr len ltac:(lia) ltac:(lia)) as [p [E _]].
    exists [p]. rewrite E. cbn - [ceil_div].
    pose proof (ceil_div_nonneg len ADDRS_PER_READ_CALLBACK ltac:(reflexivity) H1).
    repeat split; try lia; try reflexivity.
  - destruct (Z.le_gt_cases 0 addr), (Z.lt_ge_cases addr (2 ^ 32)).
    + destruct (erase_dispatch s addr ltac:(lia)) as [p [E _]].
      exists [p]. rewrite E. cbn. repeat split; try lia.
    + exists []. unfold dispatch, _erase_sector. rewrite pack_le_u32_none by lia.
      cbn. rewrite app_nil_r. repeat split; lia.
    + exists []. unfold dispatch, _erase_sector. rewrite pack_le_u32_none by lia.
      cbn. rewrite app_nil_r. repeat split; lia.
    + lia.
  - destruct (write_loop_events (length data) addr data s) as [ps [E N]].
    exists ps. unfold dispatch, _write. rewrite E.
    cbn [bump events total_callbacks_expected command_queue wants_to_exit
         done_callbacks_received read_callbacks_received].
    repeat split; lia.
Qed.

(** A valid command is dispatched completely, whatever the counters are:
    all its messages are sent, with no limit check in between. *)
Lemma dispatch_valid c s :
  valid_command c ->
  exists ps s',
    dispatch c s = Ok tt s'
    /\ events s' = events s
                   ++ announced (completions_per_message c) (message_id c) ps
    /\ Z.of_nat (length ps) = messages_of c
    /\ total_callbacks_expected s' = total_callbacks_expected s + cost c.
Proof.
  destruct c as [addr len|addr|addr data]; cbn [valid_command]; intros Hv.
  - destruct (read_dispatch s addr len ltac:(lia) ltac:(lia)) as [p [E _]].
    eexists [p], _. split; [exact E|]. cbn - [ceil_div].
    pose proof (ceil_div_nonneg len ADDRS_PER_READ_CALLBACK ltac:(reflexivity) ltac:(lia)).
    unfold cost. cbn [completions_per_message messages_of].
    repeat split; lia.
  - destruct (erase_dispatch s addr Hv) as [p [E _]].
    eexists [p], _. split; [exact E|]. cbn. repeat split; lia.
  - destruct (write_loop_sends (length data) addr data s ltac:(lia) ltac:(lia) ltac:(lia))
      as [ps [E [_ [_ [_ N]]]]].
    eexists ps, _. split; [exact E|].
    cbn [bump events total_callbacks_expected completions_per_message message_id].
    unfold cost. cbn [completions_per_message messages_of].
    repeat split; try lia.
Qed.

(** *** The dispatcher loop *)

Lemma run_step_idle s :
  wants_to_exit s = true \/ command_queue s = []
  \/ PENDING_COMMANDS_LIMIT <= flash_operations_pending s ->
  exists b, run_step s = Ok b s.
Proof.
  intros H. unfold run_step. run_m.
  destruct (wants_to_exit s) eqn:Ex; [eauto|].
  destruct (command_queue s) as [|c rest] eqn:Q; cbn; [eauto|].
  destruct (Z.ltb_spec (flash_operations_pending s) PENDING_COMMANDS_LIMIT);
    [|eauto].
  destruct H as [H|[H|H]]; [discriminate|discriminate|lia].
Qed.

Lemma run_step_pop s c rest :
  wants_to_exit s = false -> command_queue s = c :: rest ->
  flash_operations_pending s < PENDING_COMMANDS_LIMIT ->
  final_state (run_step s) = final_state (dispatch c (set_command_queue rest s)).
Proof.
  intros Ex Q P. unfold run_step. run_m. rewrite Ex, Q. cbn [length Nat.eqb negb andb].
  destruct (Z.ltb_spec (flash_operations_pending s) PENDING_COMMANDS_LIMIT); [|lia].
  cbn [andb]. destruct (dispatch c (set_command_queue rest s)); reflexivity.
Qed.

Lemma pending_bump s n es :
  flash_operations_pending (bump s n es) = flash_operations_pending s + n.
Proof. unfold flash_operations_pending, bump; cbn. lia. Qed.

(** *** The read sanity check *)

Lemma fold_expected_addrs pre a lens :
  fold_left (fun acc length => acc ++ [last acc 0 + length]) lens (pre ++ [a])
  = pre ++ cumulative a lens.
Proof.
  revert pre a. induction lens as [|l lens IH]; intros pre a; cbn [fold_left cumulative].
  - reflexivity.
  - rewrite last_last. rewrite <- app_assoc. cbn [app].
    replace (pre ++ [a; a + l]) with ((pre ++ [a]) ++ [a + l])
      by (rewrite <- app_assoc; reflexivity).
    rewrite IH. rewrite <- app_assoc. reflexivity.
Qed.

Lemma expected_addrs_cumulative a0 lens :
  expected_addrs_of a0 lens = cumulative a0 (removelast lens).
Proof. unfold expected_addrs_of. apply (fold_expected_addrs []). Qed.

Lemma cons_cumulative x xs c lens :
  x :: xs = cumulative c lens <-> x = c /\ x :: xs = cumulative x lens.
Proof.
  destruct lens; cbn [cumulative]; split.
  - intros H. injection H as -> ->. auto.
  - intros [-> H]. exact H.
  - intros H. injection H as -> ->. auto.
  - intros [-> H]. exact H.
Qed.

Lemma addrs_expected_iff_contiguous frs a l :
  map fst ((a, l) :: frs) = cumulative a (removelast (map snd ((a, l) :: frs)))
  <-> contiguous ((a, l) :: frs).
Proof.
  revert a l. induction frs as [|[a' l'] frs IH]; intros a l.
  - cbn. tauto.
  - change (map fst ((a, l) :: (a', l') :: frs)) with (a :: a' :: map fst frs).
    change (removelast (map snd ((a, l) :: (a', l') :: frs)))
      with (l :: removelast (l' :: map snd frs)).
    change (contiguous ((a, l) :: (a', l') :: frs))
      with (a' = a + l /\ contiguous ((a', l') :: frs)).
    cbn [cumulative]. rewrite <- (IH a' l'). cbn [map fst snd].
    split.
    + intros H. injection H as H. apply cons_cumulative in H. exact H.
    + intros H. f_equal. apply cons_cumulative. exact H.
Qed.

Lemma sanity_check_fragments frs a l d s :
  let st := with_fragments ((a, l) :: frs) d s in
  read_cb_sanity_check st =
    if list_eq_dec Z.eq_dec (map fst ((a, l) :: frs))
         (cumulative a (removelast (map snd ((a, l) :: frs))))
    then if sum (map snd ((a, l) :: frs)) =? Z.of_nat (length d)
         then Ok tt st else Raise LengthMismatch st
    else Raise DiscontinuousAddresses st.
Proof.
  cbn zeta. unfold read_cb_sanity_check. run_m.
  cbn [with_fragments set_rd_cb_data set_rd_cb_lens set_rd_cb_addrs
       rd_cb_addrs rd_cb_lens rd_cb_data nth_error map fst].
  rewrite expected_addrs_cumulative.
  destruct (list_eq_dec Z.eq_dec _ _); cbn [negb]; [|reflexivity].
  destruct (_ =? _); reflexivity.
Qed.

(** *** The image loader *)

Lemma py_range_In start stop step a :
  0 < step -> start mod step = 0 ->
  In a (py_range start stop step) <-> a mod step = 0 /\ start <= a < stop.
Proof.
  intros Hs Hm. unfold py_range. rewrite in_map_iff.
  pose proof (ceil_div_spec (stop - start) step Hs) as Hc.
  split.
  - intros [k [<- Hk]]. apply in_seq in Hk.
    split.
    + rewrite Z.mul_comm, Z.mod_add by lia. exact Hm.
    + assert (Z.of_nat k < ceil_div (stop - start) step) by lia. nia.
  - intros [Ha [Hlo Hhi]].
    assert (Hd : (a - start) mod step = 0)
      by (rewrite Zminus_mod, Ha, Hm; reflexivity).
    pose proof (Z.div_mod (a - start) step ltac:(lia)) as Hq.
    rewrite Hd, Z.add_0_r in Hq.
    assert (Hq0 : 0 <= (a - start) / step) by (apply Z.div_pos; lia).
    exists (Z.to_nat ((a - start) / step)). split.
    + rewrite Z2Nat.id by lia. lia.
    + apply in_seq. split; [lia|].
      assert ((a - start) / step < ceil_div (stop - start) step) by nia. lia.
Qed.

Lemma py_range_NoDup start stop step :
  0 < step -> NoDup (py_range start stop step).
Proof.
  intros Hs. unfold py_range. apply NoDup_map_NoDup_ForallPairs; [|apply seq_NoDup].
  intros x y _ _ H. apply Nat2Z.inj. apply (Z.mul_reg_l _ _ step); lia.
Qed.

Lemma set_command_queue_twice q1 q2 s :
  set_command_queue q2 (set_command_queue q1 s) = set_command_queue q2 s.
Proof. reflexivity. Qed.

Lemma set_command_queue_same s : set_command_queue (command_queue s) s = s.
Proof. destruct s; reflexivity. Qed.

Lemma for_each_schedule {A} (l : list A) (f : A -> command) s :
  for_each l (fun a => _schedule_command (f a)) s
  = Ok tt (set_command_queue (command_queue s ++ map f l) s).
Proof.
  revert s. induction l as [|x l IH]; intros s; cbn [for_each map].
  - unfold ret. rewrite app_nil_r, set_command_queue_same. reflexivity.
  - unfold bind at 1, _schedule_command at 1, modify at 1. rewrite IH.
    cbn [command_queue set_command_queue]. rewrite <- app_assoc. reflexivity.
Qed.

Lemma write_ihx_queue ihx s :
  write_ihx ihx s =
    Ok tt (set_command_queue
             (command_queue s
              ++ map Cmd_erase_sector
                   (py_range (rounddown_multiple (minaddr ihx) SECTORSIZE)
                      (roundup_multiple (maxaddr ihx) SECTORSIZE) SECTORSIZE)
              ++ map (fun a => Cmd_write a (tobinstr ihx a ADDRS_PER_WRITE_CALLBACK))
                   (py_range (rounddown_multiple (minaddr ihx) ADDRS_PER_WRITE_CALLBACK)
                      (roundup_multiple (maxaddr ihx) ADDRS_PER_WRITE_CALLBACK)
                      ADDRS_PER_WRITE_CALLBACK)) s).
Proof.
  unfold write_ihx, erase_sector, write. cbv zeta.
  unfold bind at 1. rewrite (for_each_schedule _ Cmd_erase_sector).
  rewrite (for_each_schedule _ (fun a => Cmd_write a _)).
  cbn [command_queue set_command_queue]. rewrite set_command_queue_twice, app_assoc.
  reflexivity.
Qed.

Lemma rounddown_multiple_mod x m : 0 < m -> rounddown_multiple x m mod m = 0.
Proof.
  intros Hm. rewrite rounddown_multiple_floor by exact Hm.
  rewrite Z.mul_comm. apply Z.mod_mul. lia.
Qed.

(** *** Counters along a run *)

Lemma sanity_check_state s : final_state (read_cb_sanity_check s) = s.
Proof.
  unfold read_cb_sanity_check. run_m.
  destruct (rd_cb_addrs s) as [|a0 rest]; cbn [nth_error]; [reflexivity|].
  destruct (list_eq_dec Z.eq_dec _ _); cbn [negb]; [|reflexivity].
  destruct (_ =? _); reflexivity.
Qed.

Lemma read_callback_counters data s :
  let s' := final_state (_flash_read_callback data s) in
  total_callbacks_expected s' = total_callbacks_expected s
  /\ done_callbacks_received s' = done_callbacks_received s
  /\ (read_callbacks_received s' = read_callbacks_received s
      \/ read_callbacks_received s' = read_callbacks_received s + 1).
Proof.
  cbn zeta. unfold _flash_read_callback. run_m.
  destruct (unpack_be_u32 _); [|cbn; auto].
  destruct (nth_error data 3); [|cbn; auto].
  destruct (unpack_nB _ _); cbn; auto.
Qed.

Lemma run_step_counters s :
  let s' := final_state (run_step s) in
  total_callbacks_expected s <= total_callbacks_expected s'
  /\ done_callbacks_received s' = done_callbacks_received s
  /\ read_callbacks_received s' = read_callbacks_received s.
Proof.
  cbn zeta. unfold run_step. run_m.
  destruct (wants_to_exit s); [cbn; auto with zarith|].
  destruct (command_queue s) as [|c rest]; cbn [length Nat.eqb negb andb];
    [cbn; auto with zarith|].
  destruct (_ <? _); cbn [andb]; [|cbn; auto with zarith].
  destruct (dispatch_effect c (set_command_queue rest s))
    as [ps [_ [Tot [_ [Nn [_ [_ [Dn Rd]]]]]]]].
  cbn zeta in *.
  destruct (dispatch c (set_command_queue rest s)) as [u s'|e s'];
    cbn [final_state] in *; cbn [set_command_queue total_callbacks_expected
      done_callbacks_received read_callbacks_received] in *; lia.
Qed.

(** ** Claims *)

(** C5: the dispatcher pops a command only when the queue is non-empty
    and pending() < PENDING_COMMANDS_LIMIT (20) at the check; otherwise
    the iteration changes nothing. A popped command is dispatched whole,
    without any further check between its wire messages (a valid command
    always sends all of them, whatever the counters), so right after it
    pending() is below 20 plus that command's own messages. *)
Theorem run_step_admission :
  (forall s, wants_to_exit s = true \/ command_queue s = []
             \/ PENDING_COMMANDS_LIMIT <= flash_operations_pending s ->
             exists b, run_step s = Ok b s)
  /\ (forall s c rest,
        wants_to_exit s = false -> command_queue s = c :: rest ->
        flash_operations_pending s < PENDING_COMMANDS_LIMIT ->
        let s' := final_state (run_step s) in
        command_queue s' = rest
        /\ flash_operations_pending s <= flash_operations_pending s'
        /\ flash_operations_pending s' < PENDING_COMMANDS_LIMIT + cost c)
  /\ (forall c s, valid_command c ->
        exists ps s', dispatch c s = Ok tt s'
          /\ events s' = events s
                         ++ announced (completions_per_message c) (message_id c) ps
          /\ Z.of_nat (length ps) = messages_of c).
Proof.
  split; [exact run_step_idle|]. split.
  - intros s c rest Ex Q P s'. subst s'. rewrite (run_step_pop s c rest Ex Q P).
    destruct (dispatch_effect c (set_command_queue rest s))
      as [ps [Ev [Tot [Len [Nn [Qu [_ [Dn Rd]]]]]]]].
    cbn zeta in *. rewrite Qu. split; [reflexivity|].
    unfold flash_operations_pending in *. rewrite Tot, Dn, Rd.
    cbn [set_command_queue total_callbacks_expected done_callbacks_received
         read_callbacks_received].
    unfold cost. destruct c; cbn [completions_per_message messages_of] in *; nia.
  - intros c s Hv. destruct (dispatch_valid c s Hv) as [ps [s' [E [Ev [N _]]]]].
    exists ps, s'. auto.
Qed.

(** C6: every wire message a dispatched command sends is immediately
    preceded by the increment of the expected count by the completions
    it will generate (1 per erase message, 1 per write chunk,
    ceil(length / 16) per read request); this holds also when a
    [struct.pack] error stops the command part way. *)
Theorem dispatch_announces_before_send c s :
  exists ps,
    let s' := final_state (dispatch c s) in
    events s' = events s
                ++ announced (completions_per_message c) (message_id c) ps
    /\ total_callbacks_expected s'
       = total_callbacks_expected s
         + completions_per_message c * Z.of_nat (length ps).
Proof.
  destruct (dispatch_effect c s) as [ps [Ev [Tot _]]]. exists ps. auto.
Qed.

(** C7: dispatching a read of [addr] and [length] (both fitting the
    32-bit fields of the request) empties the read accumulator, adds
    exactly ceil(length / 16) to the expected count and sends one
    read-request message carrying [addr] and [length]; nothing else
    changes. *)
Theorem read_dispatch_resets_and_announces s addr len :
  0 <= addr < 2 ^ 32 -> 0 <= len < 2 ^ 32 ->
  (exists msg_buf,
    dispatch (Cmd_read addr len) s =
      Ok tt (mkFlash (command_queue s) (wants_to_exit s)
               (total_callbacks_expected s + ceil_div len ADDRS_PER_READ_CALLBACK)
               (done_callbacks_received s) (read_callbacks_received s) [] [] []
               (events s ++ [AddExpected (ceil_div len ADDRS_PER_READ_CALLBACK);
                             SendMessage 241 msg_buf]))
    /\ length msg_buf = 8%nat
    /\ le_value (firstn 4 msg_buf) = addr /\ le_value (skipn 4 msg_buf) = len)
  /\ ADDRS_PER_READ_CALLBACK * (ceil_div len ADDRS_PER_READ_CALLBACK - 1) < len
     <= ADDRS_PER_READ_CALLBACK * ceil_div len ADDRS_PER_READ_CALLBACK.
Proof.
  intros Ha Hl. split.
  - apply read_dispatch; assumption.
  - apply ceil_div_spec. reflexivity.
Qed.

(** C2 (amended): dispatching a write of [data] (length L) at an
    address whose whole range fits the 32-bit address field emits
    max(1, ceil(L / 128)) write messages, each announcing one completion;
    every message carries at most 128 data bytes behind its address and
    length fields, each starts at the address where the previous one
    ended, and their data concatenated in order is [data]. For L = 0 this
    is one message with no data. *)
Theorem write_dispatch_chunks s addr data :
  0 <= addr < 2 ^ 32 -> addr + Z.of_nat (length data) <= 2 ^ 32 ->
  exists ps,
    dispatch (Cmd_write addr data) s =
      Ok tt (bump s (Z.of_nat (length ps)) (announced 1 240 ps))
    /\ Z.of_nat (length ps)
       = Z.max 1 (ceil_div (Z.of_nat (length data)) ADDRS_PER_WRITE_CALLBACK)
    /\ Forall write_request_ok ps
    /\ chained addr ps
    /\ concat (map wr_data ps) = data.
Proof.
  intros Ha Hend.
  destruct (write_loop_sends (length data) addr data s ltac:(lia) Ha Hend)
    as [ps [E [Oks [C [Cat N]]]]].
  exists ps. unfold dispatch, _write. auto.
Qed.

(** C2 counterexample: an empty payload still yields one (empty) write
    message, while ceil(0 / 128) = 0. *)
Lemma write_empty_payload_one_message :
  events (final_state (dispatch (Cmd_write 0 []) init_flash))
    = [AddExpected 1; SendMessage 240 [x00; x00; x00; x00; x00]]
  /\ ceil_div 0 ADDRS_PER_WRITE_CALLBACK = 0.
Proof. split; vm_compute; reflexivity. Qed.

(** C8: the wire encodings. A read request is the 4-byte little-endian
    address then the 4-byte little-endian length; an erase-sector request
    is the 4-byte little-endian address; a write request is the 4-byte
    little-endian address, one length byte in 0..128 and that many data
    bytes; an inbound read fragment is decoded as a 3-byte big-endian
    address (below 2^24: the top byte is the implicit zero), one length
    byte and then exactly that many data bytes (any other count raises
    before the fragment's data or count are recorded). *)
Theorem wire_encodings :
  (forall s addr len,
     0 <= addr < 2 ^ 32 -> 0 <= len < 2 ^ 32 ->
     exists p,
       events (final_state (dispatch (Cmd_read addr len) s))
         = events s ++ [AddExpected (ceil_div len ADDRS_PER_READ_CALLBACK);
                        SendMessage 241 p]
       /\ length p = 8%nat
       /\ le_value (firstn 4 p) = addr /\ le_value (skipn 4 p) = len)
  /\ (forall s addr,
        0 <= addr < 2 ^ 32 ->
        exists p,
          events (final_state (dispatch (Cmd_erase_sector addr) s))
            = events s ++ [AddExpected 1; SendMessage 242 p]
          /\ length p = 4%nat /\ le_value p = addr)
  /\ (forall s addr data,
        0 <= addr < 2 ^ 32 -> addr + Z.of_nat (length data) <= 2 ^ 32 ->
        exists ps,
          events (final_state (dispatch (Cmd_write addr data) s))
            = events s ++ announced 1 240 ps
          /\ Forall write_request_ok ps /\ chained addr ps)
  /\ (forall s b0 b1 b2 b3 rest,
        Z_of_byte b3 = Z.of_nat (length rest) ->
        _flash_read_callback (b0 :: b1 :: b2 :: b3 :: rest) s =
          Ok tt (set_read_callbacks_received (read_callbacks_received s + 1)
                  (set_rd_cb_data (rd_cb_data s ++ map Z_of_byte rest)
                    (set_rd_cb_lens (rd_cb_lens s ++ [Z_of_byte b3])
                      (set_rd_cb_addrs (rd_cb_addrs s ++ [be_value [b0; b1; b2]]) s))))
        /\ 0 <= be_value [b0; b1; b2] < 2 ^ 24)
  /\ (forall s b0 b1 b2 b3 rest,
        Z_of_byte b3 <> Z.of_nat (length rest) ->
        exists s',
          _flash_read_callback (b0 :: b1 :: b2 :: b3 :: rest) s = Raise StructError s'
          /\ read_callbacks_received s' = read_callbacks_received s
          /\ rd_cb_data s' = rd_cb_data s).
Proof.
  split; [|split; [|split; [|split]]].
  - intros s addr len Ha Hl.
    destruct (read_dispatch s addr len Ha Hl) as [p [E [L [A B]]]].
    exists p. rewrite E. cbn [final_state events]. auto.
  - intros s addr Ha. destruct (erase_dispatch s addr Ha) as [p [E [L A]]].
    exists p. rewrite E. cbn [final_state bump events]. auto.
  - intros s addr data Ha Hend.
    destruct (write_loop_sends (length data) addr data s ltac:(lia) Ha Hend)
      as [ps [E [Oks [C _]]]].
    exists ps. unfold dispatch, _write. rewrite E. cbn [final_state bump events]. auto.
  - intros. split; [apply read_callback_fragment; auto | apply be_value_3_bounds].
  - intros. apply read_callback_bad_length; auto.
Qed.

(** C3 (amended): on a non-empty accumulator of fragments
    (address, length) with data [d], the sanity check raises the
    discontinuous-addresses error exactly when some consecutive pair has
    next.address <> prev.address + prev.length; it raises the
    length-mismatch error exactly when the fragments are contiguous and
    the sum of their lengths differs from the number of data bytes (the
    address check comes first and hides a length mismatch); it passes
    exactly when both conditions hold. *)
Theorem sanity_check_integrity frs a l d s :
  let st := with_fragments ((a, l) :: frs) d s in
  (read_cb_sanity_check st = Raise DiscontinuousAddresses st
   <-> ~ contiguous ((a, l) :: frs))
  /\ (read_cb_sanity_check st = Raise LengthMismatch st
      <-> contiguous ((a, l) :: frs)
          /\ sum (map snd ((a, l) :: frs)) <> Z.of_nat (length d))
  /\ (read_cb_sanity_check st = Ok tt st
      <-> contiguous ((a, l) :: frs)
          /\ sum (map snd ((a, l) :: frs)) = Z.of_nat (length d)).
Proof.
  cbn zeta. rewrite sanity_check_fragments.
  pose proof (addrs_expected_iff_contiguous frs a l) as Hc.
  destruct (list_eq_dec Z.eq_dec _ _) as [E|E].
  - assert (C : contiguous ((a, l) :: frs)) by (apply Hc; exact E).
    destruct (Z.eqb_spec (sum (map snd ((a, l) :: frs))) (Z.of_nat (length d))).
    + repeat split; intros; try discriminate; tauto.
    + repeat split; intros; try discriminate; tauto.
  - assert (C : ~ contiguous ((a, l) :: frs)) by (rewrite <- Hc; exact E).
    repeat split; intros; try discriminate; tauto.
Qed.

(** C3 counterexample: fragments at 0 and 48 (lengths 16, 16) with no
    data: the lengths (32) disagree with the data (0 bytes), yet the
    check raises the discontinuous-addresses error, not the
    length-mismatch one. *)
Lemma sanity_check_gap_hides_length_mismatch :
  sum (rd_cb_lens (with_fragments [(0, 16); (48, 16)] [] init_flash))
    <> Z.of_nat (length (rd_cb_data (with_fragments [(0, 16); (48, 16)] [] init_flash)))
  /\ read_cb_sanity_check (with_fragments [(0, 16); (48, 16)] [] init_flash)
     = Raise DiscontinuousAddresses (with_fragments [(0, 16); (48, 16)] [] init_flash).
Proof. split; [cbv; discriminate | vm_compute; reflexivity]. Qed.

(** C9: the sanity check indexes the first address unconditionally: on
    an empty accumulator it raises IndexError (neither passing nor one of
    the two integrity errors); with at least one address it ends in one
    of its three outcomes. *)
Theorem sanity_check_needs_a_fragment s :
  (read_cb_sanity_check s = Raise IndexError s <-> rd_cb_addrs s = [])
  /\ (rd_cb_addrs s = []
      \/ read_cb_sanity_check s = Ok tt s
      \/ read_cb_sanity_check s = Raise DiscontinuousAddresses s
      \/ read_cb_sanity_check s = Raise LengthMismatch s).
Proof.
  unfold read_cb_sanity_check. run_m.
  destruct (rd_cb_addrs s) as [|a0 rest] eqn:A; cbn [nth_error].
  - split; [split; reflexivity | left; reflexivity].
  - destruct (list_eq_dec Z.eq_dec _ _); cbn [negb];
      [destruct (_ =? _); cbn [negb]|].
    all: split; [split; intros H; discriminate H | right; tauto].
Qed.

(** C4: the image loader enqueues, after what is already queued, one
    Erase per multiple of SECTORSIZE (64 KiB) from
    floor(minaddr, SECTORSIZE) up to, excluding, ceil(maxaddr, SECTORSIZE),
    then one Write per multiple of 128 from floor(minaddr, 128) up to,
    excluding, ceil(maxaddr, 128), carrying the 128-byte image extract at
    its address; for an image spanning [0x1000, 0x1FFF] this is one Erase
    of sector 0 and Writes at 0x1000, 0x1080, ..., 0x1F80. *)
Theorem write_ihx_erase_then_write :
  (forall ihx s,
     let E := py_range (rounddown_multiple (minaddr ihx) SECTORSIZE)
                (roundup_multiple (maxaddr ihx) SECTORSIZE) SECTORSIZE in
     let W := py_range (rounddown_multiple (minaddr ihx) ADDRS_PER_WRITE_CALLBACK)
                (roundup_multiple (maxaddr ihx) ADDRS_PER_WRITE_CALLBACK)
                ADDRS_PER_WRITE_CALLBACK in
     write_ihx ihx s =
       Ok tt (set_command_queue
                (command_queue s ++ map Cmd_erase_sector E
                 ++ map (fun a => Cmd_write a (tobinstr ihx a ADDRS_PER_WRITE_CALLBACK)) W) s)
     /\ NoDup E
     /\ (forall a, In a E <->
           a mod SECTORSIZE = 0
           /\ SECTORSIZE * (minaddr ihx / SECTORSIZE) <= a
           < SECTORSIZE * ceil_div (maxaddr ihx) SECTORSIZE)
     /\ NoDup W
     /\ (forall a, In a W <->
           a mod ADDRS_PER_WRITE_CALLBACK = 0
           /\ ADDRS_PER_WRITE_CALLBACK * (minaddr ihx / ADDRS_PER_WRITE_CALLBACK) <= a
           < ADDRS_PER_WRITE_CALLBACK * ceil_div (maxaddr ihx) ADDRS_PER_WRITE_CALLBACK))
  /\ (forall tobin s,
        write_ihx (mkIntelHex 0x1000 0x1FFF tobin) s =
          Ok tt (set_command_queue
                   (command_queue s ++ [Cmd_erase_sector 0]
                    ++ map (fun k => Cmd_write (0x1000 + 0x80 * Z.of_nat k)
                                       (tobin (0x1000 + 0x80 * Z.of_nat k) 128))
                         (seq 0 32)) s)).
Proof.
  split.
  - intros ihx s E W. split; [apply write_ihx_queue|].
    assert (HS : 0 < SECTORSIZE) by reflexivity.
    assert (HW : 0 < ADDRS_PER_WRITE_CALLBACK) by reflexivity.
    split; [apply py_range_NoDup; exact HS|].
    split.
    { intros a. unfold E. rewrite py_range_In by (auto using rounddown_multiple_mod).
      rewrite rounddown_multiple_floor, roundup_multiple_ceil by exact HS. tauto. }
    split; [apply py_range_NoDup; exact HW|].
    intros a. unfold W. rewrite py_range_In by (auto using rounddown_multiple_mod).
    rewrite rounddown_multiple_floor, roundup_multiple_ceil by exact HW. tauto.
  - intros tobin s. rewrite write_ihx_queue. vm_compute. reflexivity.
Qed.

(** C10: the erase phase of the image loader covers its write phase:
    floor(minaddr, 64 KiB) <= floor(minaddr, 128),
    ceil(maxaddr, 128) <= ceil(maxaddr, 64 KiB), and every address in
    [floor(minaddr, 128), ceil(maxaddr, 128)) lies in an erased sector. *)
Theorem write_pages_inside_erased_sectors ihx :
  rounddown_multiple (minaddr ihx) SECTORSIZE
    <= rounddown_multiple (minaddr ihx) ADDRS_PER_WRITE_CALLBACK
  /\ roundup_multiple (maxaddr ihx) ADDRS_PER_WRITE_CALLBACK
     <= roundup_multiple (maxaddr ihx) SECTORSIZE
  /\ (forall p,
        rounddown_multiple (minaddr ihx) ADDRS_PER_WRITE_CALLBACK <= p
        < roundup_multiple (maxaddr ihx) ADDRS_PER_WRITE_CALLBACK ->
        exists e,
          In e (py_range (rounddown_multiple (minaddr ihx) SECTORSIZE)
                  (roundup_multiple (maxaddr ihx) SECTORSIZE) SECTORSIZE)
          /\ e <= p < e + SECTORSIZE).
Proof.
  assert (HS : 0 < SECTORSIZE) by reflexivity.
  assert (HW : 0 < ADDRS_PER_WRITE_CALLBACK) by reflexivity.
  assert (Lo : rounddown_multiple (minaddr ihx) SECTORSIZE
               <= rounddown_multiple (minaddr ihx) ADDRS_PER_WRITE_CALLBACK).
  { rewrite !rounddown_multiple_floor by assumption.
    change SECTORSIZE with (128 * 512). unfold ADDRS_PER_WRITE_CALLBACK.
    rewrite <- (Z.div_div (minaddr ihx) 128 512) by lia.
    pose proof (Z.mul_div_le (minaddr ihx / 128) 512 ltac:(lia)). lia. }
  assert (Hi : roundup_multiple (maxaddr ihx) ADDRS_PER_WRITE_CALLBACK
               <= roundup_multiple (maxaddr ihx) SECTORSIZE).
  { rewrite !roundup_multiple_ceil by assumption.
    change SECTORSIZE with (128 * 512). unfold ADDRS_PER_WRITE_CALLBACK, ceil_div.
    rewrite <- (Z.div_div (- maxaddr ihx) 128 512) by lia.
    pose proof (Z.mul_div_le (- maxaddr ihx / 128) 512 ltac:(lia)). lia. }
  split; [exact Lo|]. split; [exact Hi|].
  intros p Hp. exists (SECTORSIZE * (p / SECTORSIZE)).
  pose proof (Z.div_mod p SECTORSIZE ltac:(lia)).
  pose proof (Z.mod_pos_bound p SECTORSIZE HS).
  split; [|lia].
  apply py_range_In; [exact HS | apply rounddown_multiple_mod; exact HS|].
  split; [rewrite Z.mul_comm; apply Z.mod_mul; lia|].
  split; [|lia].
  rewrite (rounddown_multiple_floor (minaddr ihx) SECTORSIZE HS) in *.
  assert (minaddr ihx / SECTORSIZE <= p / SECTORSIZE)
    by (apply Z.div_le_lower_bound; lia).
  nia.
Qed.

(** C1 (amended): dispatcher steps, client calls and sanity checks never
    lower expected - completed - read_completed, and each callback lowers
    it by at most one; hence completed + read_completed <= expected
    (pending() >= 0) holds at every point of any run from a fresh object
    in which every callback arrives while pending() > 0. *)
Theorem counters_invariant s :
  acked_reachable s ->
  counters_ok s /\ 0 <= flash_operations_pending s.
Proof.
  unfold counters_ok, flash_operations_pending.
  intros R. induction R as [|a s s' R [IH _] Step Guard].
  - cbn. lia.
  - unfold flash_operations_pending in Guard.
    destruct Step as [s|c s|s|s|data s|data s].
    + pose proof (run_step_counters s) as H. cbn zeta in H. lia.
    + cbn. lia.
    + cbn. lia.
    + rewrite sanity_check_state. lia.
    + specialize (Guard eq_refl). cbn. lia.
    + specialize (Guard eq_refl).
      pose proof (read_callback_counters data s) as H. cbn zeta in H. lia.
Qed.

(** C1 counterexample: a completion callback delivered to a fresh
    object, with nothing outstanding, makes completed exceed expected
    (pending() = -1); nothing in the code rejects it. *)
Lemma unsolicited_callback_breaks_counters :
  env_step Callback init_flash (final_state (_flash_done_callback [] init_flash))
  /\ ~ counters_ok (final_state (_flash_done_callback [] init_flash))
  /\ flash_operations_pending (final_state (_flash_done_callback [] init_flash)) = -1.
Proof.
  split; [constructor|]. split; [|reflexivity].
  unfold counters_ok. cbn. lia.
Qed.

(** ** Witnesses *)

Lemma counters_invariant_witness :
  acked_reachable
    (final_state (run_step (final_state (_schedule_command (Cmd_erase_sector 0) init_flash))))
  /\ counters_ok
       (final_state (run_step (final_state (_schedule_command (Cmd_erase_sector 0) init_flash))))
  /\ 0 <= flash_operations_pending
       (final_state (run_step (final_state (_schedule_command (Cmd_erase_sector 0) init_flash)))).
Proof.
  assert (R : acked_reachable
    (final_state (run_step (final_state (_schedule_command (Cmd_erase_sector 0) init_flash))))).
  { apply (Reach_step Dispatcher
             (final_state (_schedule_command (Cmd_erase_sector 0) init_flash))).
    - apply (Reach_step Client init_flash).
      + exact Reach_init.
      + apply Step_schedule.
      + intros H; discriminate H.
    - apply Step_run.
    - intros H; discriminate H. }
  split; [exact R|]. exact (counters_invariant _ R).
Defined.

Lemma write_dispatch_chunks_witness :
  (0 <= 0 < 2 ^ 32 /\ 0 + Z.of_nat (length (repeat x00 200)) <= 2 ^ 32)
  /\ exists ps,
    dispatch (Cmd_write 0 (repeat x00 200)) init_flash =
      Ok tt (bump init_flash (Z.of_nat (length ps)) (announced 1 240 ps))
    /\ Z.of_nat (length ps)
       = Z.max 1 (ceil_div (Z.of_nat (length (repeat x00 200))) ADDRS_PER_WRITE_CALLBACK)
    /\ Forall write_request_ok ps
    /\ chained 0 ps
    /\ concat (map wr_data ps) = repeat x00 200.
Proof.
  split.
  - rewrite repeat_length. lia.
  - apply (write_dispatch_chunks init_flash 0 (repeat x00 200));
      rewrite ?repeat_length; lia.
Defined.

Lemma read_dispatch_resets_and_announces_witness :
  (0 <= 4096 < 2 ^ 32 /\ 0 <= 100 < 2 ^ 32)
  /\ ((exists msg_buf,
        dispatch (Cmd_read 4096 100) init_flash =
          Ok tt (mkFlash [] false (0 + ceil_div 100 ADDRS_PER_READ_CALLBACK) 0 0 [] [] []
                   ([] ++ [AddExpected (ceil_div 100 ADDRS_PER_READ_CALLBACK);
                           SendMessage 241 msg_buf]))
        /\ length msg_buf = 8%nat
        /\ le_value (firstn 4 msg_buf) = 4096 /\ le_value (skipn 4 msg_buf) = 100)
      /\ ADDRS_PER_READ_CALLBACK * (ceil_div 100 ADDRS_PER_READ_CALLBACK - 1) < 100
         <= ADDRS_PER_READ_CALLBACK * ceil_div 100 ADDRS_PER_READ_CALLBACK).
Proof.
  split; [lia|].
  apply (read_dispatch_resets_and_announces init_flash 4096 100); lia.
Defined.

(** ** Further properties of flash.py *)

(** *** Helpers *)

Lemma acked_pending_nonneg s :
  acked_reachable s -> 0 <= flash_operations_pending s.
Proof.
  unfold flash_operations_pending.
  intros R. induction R as [|a s s' R IH Step Guard].
  - cbn. lia.
  - unfold flash_operations_pending in Guard.
    destruct Step as [s|c s|s|s|data s|data s].
    + pose proof (run_step_counters s) as H. cbn zeta in H. lia.
    + cbn. lia.
    + cbn. lia.
    + rewrite sanity_check_state. lia.
    + specialize (Guard eq_refl). cbn. lia.
    + specialize (Guard eq_refl).
      pose proof (read_callback_counters data s) as H. cbn zeta in H. lia.
Qed.

Lemma env_step_keeps_exit a s s' :
  env_step a s s' -> wants_to_exit s = true -> wants_to_exit s' = true.
Proof.
  intros St E. destruct St as [s|c s|s|s|data s|data s].
  - destruct (run_step_idle s (or_introl E)) as [b R]. rewrite R. exact E.
  - exact E.
  - reflexivity.
  - rewrite sanity_check_state. exact E.
  - exact E.
  - unfold _flash_read_callback. run_m.
    destruct (unpack_be_u32 _); [|exact E].
    destruct (nth_error data 3); [|exact E].
    destruct (unpack_nB _ _); exact E.
Qed.

Lemma pack_II_none a b :
  ~ (0 <= a < 2 ^ 32 /\ 0 <= b < 2 ^ 32) -> pack_II a b = None.
Proof.
  intros H. unfold pack_II.
  destruct (Z.le_gt_cases 0 a), (Z.lt_ge_cases a (2 ^ 32)).
  2-4: rewrite (pack_le_u32_none a) by lia; reflexivity.
  rewrite (pack_le_u32_none b) by lia. destruct (pack_le_u32 a); reflexivity.
Qed.

Lemma write_loop_sizes fuel addr data s :
  Z.of_nat (length data) <= 128 * (Z.of_nat fuel + 1) ->
  0 <= addr < 2 ^ 32 -> addr + Z.of_nat (length data) <= 2 ^ 32 ->
  data <> [] ->
  exists ps,
    write_loop fuel addr data s =
      Ok tt (bump s (Z.of_nat (length ps)) (announced 1 240 ps))
    /\ Forall (fun p => length (wr_data p) = 128%nat) (removelast ps)
    /\ (1 <= length (wr_data (last ps [])) <= 128)%nat.
Proof.
  revert addr data s.
  induction fuel as [|fuel IH]; intros addr data s Hf Ha Hend Hne.
  - destruct (send_write_chunk_ok s addr data Ha ltac:(lia)) as [p [E [_ [_ D]]]].
    exists [p]. cbn [write_loop]. rewrite E, announced_one.
    split; [reflexivity|]. split; [constructor|].
    cbn [last]. rewrite D. destruct data; [congruence|cbn [length] in *; lia].
  - cbn [write_loop]. unfold ADDRS_PER_WRITE_CALLBACK at 1.
    destruct (Z.gtb_spec (Z.of_nat (length data)) 128) as [Hgt|Hle].
    + change (Z.to_nat ADDRS_PER_WRITE_CALLBACK) with 128%nat.
      assert (Hfl : length (firstn 128 data) = 128%nat)
        by (rewrite length_firstn; lia).
      assert (Hsl : Z.of_nat (length (skipn 128 data)) = Z.of_nat (length data) - 128)
        by (rewrite length_skipn; lia).
      destruct (send_write_chunk_ok s addr (firstn 128 data) Ha ltac:(lia))
        as [p [E [_ [_ D]]]].
      destruct (IH (addr + ADDRS_PER_WRITE_CALLBACK) (skipn 128 data)
                  (bump s 1 [AddExpected 1; SendMessage 240 p]))
        as [ps [E' [Full Last]]];
        unfold ADDRS_PER_WRITE_CALLBACK in *; try lia.
      { intros Hn. rewrite Hn in Hsl. cbn in Hsl. lia. }
      exists (p :: ps). unfold bind at 1. rewrite E, E', bump_announced_cons.
      split; [reflexivity|].
      destruct ps as [|q ps'].
      * cbn in Last. lia.
      * split.
        -- change (removelast (p :: q :: ps')) with (p :: removelast (q :: ps')).
           constructor; [rewrite D; exact Hfl | exact Full].
        -- exact Last.
    + destruct (send_write_chunk_ok s addr data Ha ltac:(lia)) as [p [E [_ [_ D]]]].
      exists [p]. rewrite E, announced_one.
      split; [reflexivity|]. split; [constructor|].
      cbn [last]. rewrite D. destruct data; [congruence|cbn [length] in *; lia].
Qed.

Lemma run_with_costs_queue K s :
  run_with_costs K s -> Forall (fun c => cost c <= K) (command_queue s).
Proof. intros R. destruct R; [constructor | assumption]. Qed.

Lemma dispatch_pending_cost c s :
  flash_operations_pending (final_state (dispatch c s))
  <= flash_operations_pending s + cost c.
Proof.
  destruct (dispatch_effect c s) as [ps [_ [Tot [Nm [Nn [_ [_ [Dn Rd]]]]]]]].
  cbn zeta in *. unfold flash_operations_pending, cost. rewrite Tot, Dn, Rd.
  set (k := completions_per_message c) in *.
  set (n := Z.of_nat (length ps)) in *.
  assert (0 <= n) by lia.
  pose proof (Z.le_max_l 0 (k * messages_of c)).
  pose proof (Z.le_max_r 0 (k * messages_of c)).
  destruct (Z.le_gt_cases 0 k); [nia|].
  assert (n = 0) by nia. subst n. lia.
Qed.

Lemma be_value_fragment a :
  0 <= a < 2 ^ 24 ->
  be_value [byte_of_Z (Z.shiftr a 16); byte_of_Z (Z.shiftr a 8); byte_of_Z a] = a.
Proof.
  intros Ha. unfold be_value. cbn [rev app le_value]. rewrite !Z_of_byte_of_Z.
  rewrite !Z.shiftr_div_pow2 by lia.
  change (2 ^ 16) with (256 * 256). change (2 ^ 8) with 256.
  rewrite <- !Z.div_div by lia.
  rewrite (Z.mod_small (a / 256 / 256)).
  2:{ split; [apply Z.div_pos; [apply Z.div_pos|]; lia|].
      rewrite Z.div_div by lia. apply Z.div_lt_upper_bound; lia. }
  pose proof (Z.div_mod a 256). pose proof (Z.div_mod (a / 256) 256). lia.
Qed.

Lemma fragment_state_eq r d l a s :
  set_read_callbacks_received r (set_rd_cb_data d (set_rd_cb_lens l (set_rd_cb_addrs a s)))
  = mkFlash (command_queue s) (wants_to_exit s) (total_callbacks_expected s)
      (done_callbacks_received s) r a l d (events s).
Proof. reflexivity. Qed.

Lemma deliver_fragments_ok frs s :
  Forall (fun f => 0 <= fst f < 2 ^ 24 /\ (length (snd f) < 256)%nat) frs ->
  deliver_fragments (map (fun f => fragment_msg (fst f) (snd f)) frs) s =
  Ok tt (set_read_callbacks_received
           (read_callbacks_received s + Z.of_nat (length frs))
         (set_rd_cb_data
            (rd_cb_data s ++ concat (map (fun f => map Z_of_byte (snd f)) frs))
         (set_rd_cb_lens
            (rd_cb_lens s ++ map (fun f => Z.of_nat (length (snd f))) frs)
         (set_rd_cb_addrs (rd_cb_addrs s ++ map fst frs) s)))).
Proof.
  unfold deliver_fragments. revert s.
  induction frs as [|[a bs] frs IH]; intros s HF.
  - cbn [map concat length for_each]. unfold ret.
    change (Z.of_nat 0) with 0. rewrite !app_nil_r, Z.add_0_r.
    destruct s; reflexivity.
  - inversion HF as [|? ? [Ha Hl] HF']; subst. cbn [map for_each fst snd] in *.
    unfold fragment_msg. cbn [app]. unfold bind at 1.
    rewrite read_callback_fragment by (rewrite Z_of_byte_small; lia).
    rewrite IH by exact HF'.
    rewrite be_value_fragment by exact Ha. rewrite Z_of_byte_small by lia.
    rewrite !fragment_state_eq.
    cbn [read_callbacks_received rd_cb_data rd_cb_lens rd_cb_addrs
      command_queue wants_to_exit total_callbacks_expected done_callbacks_received
      events length].
    cbn [concat]. rewrite <- !app_assoc. cbn [app]. f_equal. f_equal. lia.
Qed.

Lemma sum_fragment_lens (frs : list (Z * list byte)) :
  sum (map (fun f => Z.of_nat (length (snd f))) frs)
  = Z.of_nat (length (concat (map (fun f => map Z_of_byte (snd f)) frs))).
Proof.
  induction frs as [|f frs IH]; [reflexivity|].
  cbn [map concat sum fold_right]. fold (sum (map (fun f => Z.of_nat (length (snd f))) frs)).
  rewrite IH, length_app, length_map. lia.
Qed.

(** *** Extra properties *)

(** X1 [rounddown_multiple]: for a positive [m], the result is a multiple of
    [m], at most [x], and more than [x - m]. *)
Theorem rounddown_multiple_bounds x m :
  0 < m ->
  rounddown_multiple x m mod m = 0 /\ x - m < rounddown_multiple x m <= x.
Proof.
  intros Hm. split; [apply rounddown_multiple_mod; exact Hm|].
  rewrite rounddown_multiple_floor by exact Hm.
  pose proof (Z.div_mod x m ltac:(lia)). pose proof (Z.mod_pos_bound x m Hm). lia.
Qed.

(** X2 [roundup_multiple]: for a positive [m], the result is a multiple of
    [m], at least [x], and less than [x + m]. *)
Theorem roundup_multiple_bounds x m :
  0 < m ->
  roundup_multiple x m mod m = 0 /\ x <= roundup_multiple x m < x + m.
Proof.
  intros Hm. rewrite roundup_multiple_ceil by exact Hm.
  pose proof (ceil_div_spec x m Hm).
  split; [rewrite Z.mul_comm; apply Z.mod_mul; lia | lia].
Qed.

(** X3 [stop]: once [stop] has run, whatever the client and the callbacks
    do afterwards, the exit flag stays set and every dispatcher step
    returns [false] without changing anything: no queued command is ever
    dispatched again. *)
Theorem stop_is_permanent s s' :
  clos_refl_trans_1n Flash any_step (final_state (stop s)) s' ->
  wants_to_exit s' = true /\ run_step s' = Ok false s'.
Proof.
  intros R.
  assert (E : wants_to_exit s' = true).
  { remember (final_state (stop s)) as s0 eqn:Hs0.
    assert (E0 : wants_to_exit s0 = true) by (subst s0; reflexivity).
    clear Hs0. induction R as [x|x y z [a St] R IH]; [exact E0|].
    apply IH. exact (env_step_keeps_exit a x y St E0). }
  split; [exact E|]. unfold run_step. run_m. rewrite E. reflexivity.
Qed.

(** X4 [flash_callbacks_left]: in every run where callbacks only arrive
    while an operation is pending, it is at least the queue length, and it
    is 0 exactly when the queue is empty and nothing is pending. *)
Theorem callbacks_left_in_acked_runs s :
  acked_reachable s ->
  Z.of_nat (length (command_queue s)) <= flash_callbacks_left s
  /\ (flash_callbacks_left s = 0
      <-> command_queue s = [] /\ flash_operations_pending s = 0).
Proof.
  intros R. pose proof (acked_pending_nonneg s R) as P.
  unfold flash_callbacks_left. split; [lia|]. split.
  - intros H. destruct (command_queue s); cbn [length] in *; [split; [reflexivity|lia]|lia].
  - intros [-> H0]. cbn [length]. lia.
Qed.

(** X5 [_schedule_command] and [run]: a command scheduled while others are
    queued goes to the back; the next dispatcher step still dispatches the
    head of the old queue and leaves the new command behind the rest. *)
Theorem schedule_does_not_overtake c s c0 rest :
  wants_to_exit s = false -> command_queue s = c0 :: rest ->
  flash_operations_pending s < PENDING_COMMANDS_LIMIT ->
  final_state (run_step (final_state (_schedule_command c s)))
  = final_state (dispatch c0 (set_command_queue (rest ++ [c]) s)).
Proof.
  intros Ex Q P. unfold _schedule_command, modify. cbn [final_state].
  rewrite (run_step_pop _ c0 (rest ++ [c])).
  - rewrite set_command_queue_twice. reflexivity.
  - exact Ex.
  - cbn [command_queue set_command_queue]. rewrite Q. reflexivity.
  - exact P.
Qed.

(** X6 [run]: the dispatcher removes a command from the queue before
    running it, so a command that raises is not put back: the exception is
    the command's own and the queue left behind is the rest. *)
Theorem failed_command_is_dropped s c rest e s' :
  wants_to_exit s = false -> command_queue s = c :: rest ->
  flash_operations_pending s < PENDING_COMMANDS_LIMIT ->
  run_step s = Raise e s' ->
  dispatch c (set_command_queue rest s) = Raise e s' /\ command_queue s' = rest.
Proof.
  intros Ex Q P R. unfold run_step in R.
  cbv beta iota delta [bind modify ret get raise lift_opt] in R. rewrite Ex, Q in R.
  cbn [length Nat.eqb negb andb] in R.
  destruct (Z.ltb_spec (flash_operations_pending s) PENDING_COMMANDS_LIMIT); [|lia].
  cbn [andb] in R.
  destruct (dispatch c (set_command_queue rest s)) as [u s1|e1 s1] eqn:D;
    [discriminate|].
  injection R as <- <-. split; [reflexivity|].
  destruct (dispatch_effect c (set_command_queue rest s))
    as [ps [_ [_ [_ [_ [Qe _]]]]]].
  cbn zeta in Qe. rewrite D in Qe. exact Qe.
Qed.

(** X7 [_read], [_erase_sector], [_write]: a command whose address (or
    read length) does not fit 32 bits raises struct.error before anything
    is announced or sent. An erase or a write leaves the object unchanged;
    a read has already cleared the read accumulator. *)
Theorem out_of_range_commands_raise s :
  (forall addr len, ~ (0 <= addr < 2 ^ 32 /\ 0 <= len < 2 ^ 32) ->
     dispatch (Cmd_read addr len) s
     = Raise StructError (set_rd_cb_data [] (set_rd_cb_lens [] (set_rd_cb_addrs [] s))))
  /\ (forall addr, ~ (0 <= addr < 2 ^ 32) ->
        dispatch (Cmd_erase_sector addr) s = Raise StructError s)
  /\ (forall addr data, ~ (0 <= addr < 2 ^ 32) ->
        dispatch (Cmd_write addr data) s = Raise StructError s).
Proof.
  split; [|split].
  - intros addr len H. unfold dispatch, _read. run_m.
    rewrite pack_II_none by exact H. reflexivity.
  - intros addr H. unfold dispatch, _erase_sector. run_m.
    rewrite pack_le_u32_none by exact H. reflexivity.
  - intros addr data H. unfold dispatch, _write.
    destruct (length data) as [|n]; cbn [write_loop].
    + apply send_write_chunk_fail. exact H.
    + destruct (_ >? _).
      * unfold bind at 1. rewrite send_write_chunk_fail by exact H. reflexivity.
      * apply send_write_chunk_fail. exact H.
Qed.

(** X8 [_write]: for a non-empty payload whose range fits the address
    field, every write message but the last carries exactly 128 data bytes
    and the last carries between 1 and 128. *)
Theorem write_chunk_sizes s addr data :
  0 <= addr < 2 ^ 32 -> addr + Z.of_nat (length data) <= 2 ^ 32 -> data <> [] ->
  exists ps,
    dispatch (Cmd_write addr data) s
    = Ok tt (bump s (Z.of_nat (length ps)) (announced 1 240 ps))
    /\ Forall (fun p => length (wr_data p) = 128%nat) (removelast ps)
    /\ (1 <= length (wr_data (last ps [])) <= 128)%nat.
Proof.
  intros Ha Hend Hne. unfold dispatch, _write.
  apply write_loop_sizes; [lia | exact Ha | exact Hend | exact Hne].
Qed.

(** X9 [_flash_read_callback]: a malformed fragment raises and is not
    counted. With fewer than 3 bytes nothing changes; with exactly 3 the
    address is recorded but no length (IndexError); with a length byte
    that does not match the data, the address and length are recorded but
    no data (struct.error). *)
Theorem read_callback_malformed s :
  (forall data, (length data < 3)%nat ->
     _flash_read_callback data s = Raise StructError s)
  /\ (forall b0 b1 b2,
        _flash_read_callback [b0; b1; b2] s
        = Raise IndexError
            (set_rd_cb_addrs (rd_cb_addrs s ++ [be_value [b0; b1; b2]]) s))
  /\ (forall b0 b1 b2 b3 rest, Z_of_byte b3 <> Z.of_nat (length rest) ->
        _flash_read_callback (b0 :: b1 :: b2 :: b3 :: rest) s
        = Raise StructError
            (set_rd_cb_lens (rd_cb_lens s ++ [Z_of_byte b3])
               (set_rd_cb_addrs (rd_cb_addrs s ++ [be_value [b0; b1; b2]]) s))).
Proof.
  split; [|split].
  - intros data H. destruct data as [|b0 [|b1 [|b2 d]]];
      try (cbn [length] in H; lia); reflexivity.
  - intros b0 b1 b2. unfold _flash_read_callback. cbn [firstn nth_error].
    rewrite unpack_be_u32_3. reflexivity.
  - intros b0 b1 b2 b3 rest Hlen. unfold _flash_read_callback.
    cbn [firstn nth_error skipn]. rewrite unpack_be_u32_3. run_m.
    unfold unpack_nB. cbn [rd_cb_lens set_rd_cb_lens]. rewrite last_last.
    destruct (Z.eqb_spec (Z.of_nat (length rest)) (Z_of_byte b3)); [lia|].
    reflexivity.
Qed.

Lemma deliver_as_fragments frs s :
  rd_cb_addrs s = [] -> rd_cb_lens s = [] -> rd_cb_data s = [] ->
  Forall (fun f => 0 <= fst f < 2 ^ 24 /\ (length (snd f) < 256)%nat) frs ->
  final_state (deliver_fragments (map (fun f => fragment_msg (fst f) (snd f)) frs) s)
  = with_fragments (map fragment_extent frs)
      (concat (map (fun f => map Z_of_byte (snd f)) frs))
      (set_read_callbacks_received
         (read_callbacks_received s + Z.of_nat (length frs)) s).
Proof.
  intros A L D HF. rewrite deliver_fragments_ok by exact HF. cbn [final_state].
  rewrite fragment_state_eq, A, L, D. cbn [app].
  unfold with_fragments, set_rd_cb_data, set_rd_cb_lens, set_rd_cb_addrs,
    set_read_callbacks_received.
  cbn [command_queue wants_to_exit total_callbacks_expected done_callbacks_received
       read_callbacks_received events].
  rewrite !map_map. reflexivity.
Qed.

(** X10 [_flash_read_callback] then [read_cb_sanity_check]: when a
    non-empty sequence of well-formed fragments (24-bit address, fewer than
    256 data bytes) is delivered to an empty accumulator, the accumulator
    holds their addresses and their data concatenated in order, each
    fragment is counted once, and the sanity check passes exactly when the
    fragments are contiguous. *)
Theorem delivered_fragments_check frs s :
  frs <> [] ->
  rd_cb_addrs s = [] -> rd_cb_lens s = [] -> rd_cb_data s = [] ->
  Forall (fun f => 0 <= fst f < 2 ^ 24 /\ (length (snd f) < 256)%nat) frs ->
  let s' := final_state
              (deliver_fragments (map (fun f => fragment_msg (fst f) (snd f)) frs) s) in
  rd_cb_addrs s' = map fst frs
  /\ rd_cb_data s' = concat (map (fun f => map Z_of_byte (snd f)) frs)
  /\ read_callbacks_received s' = read_callbacks_received s + Z.of_nat (length frs)
  /\ (read_cb_sanity_check s' = Ok tt s' <-> contiguous (map fragment_extent frs)).
Proof.
  intros Hne A L D HF. cbn zeta.
  rewrite (deliver_as_fragments frs s A L D HF).
  split; [unfold with_fragments; cbn [rd_cb_addrs set_rd_cb_data set_rd_cb_lens
           set_rd_cb_addrs]; rewrite map_map; reflexivity|].
  split; [reflexivity|]. split; [reflexivity|].
  destruct frs as [|[a bs] frs']; [congruence|].
  set (d := concat (map (fun f => map Z_of_byte (snd f)) ((a, bs) :: frs'))).
  set (s0 := set_read_callbacks_received _ s).
  assert (Sm : sum (map snd (map fragment_extent ((a, bs) :: frs')))
               = Z.of_nat (length d)).
  { rewrite map_map. apply sum_fragment_lens. }
  change (map fragment_extent ((a, bs) :: frs'))
    with ((a, Z.of_nat (length bs)) :: map fragment_extent frs') in *.
  pose proof (sanity_check_fragments (map fragment_extent frs') a
                (Z.of_nat (length bs)) d s0) as SC.
  cbn zeta in SC. rewrite SC.
  destruct (list_eq_dec Z.eq_dec _ _) as [Eq|Ne].
  - rewrite Sm, Z.eqb_refl. split; [intros _|reflexivity].
    apply addrs_expected_iff_contiguous. exact Eq.
  - split; [discriminate|]. intros C.
    apply addrs_expected_iff_contiguous in C. contradiction.
Qed.

(** X11 [write_ihx]: the loader only appends commands to the queue. When
    [maxaddr] is a multiple of 128, every page it writes ends at or below
    [maxaddr], so no write covers the byte at [maxaddr]; when [maxaddr] is a
    multiple of the sector size, no erased sector covers it either. *)
Theorem write_ihx_misses_aligned_maxaddr ihx s :
  exists added,
    write_ihx ihx s = Ok tt (set_command_queue (command_queue s ++ added) s)
    /\ (maxaddr ihx mod ADDRS_PER_WRITE_CALLBACK = 0 ->
        forall a d, In (Cmd_write a d) added ->
        a + ADDRS_PER_WRITE_CALLBACK <= maxaddr ihx)
    /\ (maxaddr ihx mod SECTORSIZE = 0 ->
        forall a, In (Cmd_erase_sector a) added -> a + SECTORSIZE <= maxaddr ihx).
Proof.
  eexists. split; [rewrite write_ihx_queue; reflexivity|].
  assert (HS : 0 < SECTORSIZE) by reflexivity.
  assert (HW : 0 < ADDRS_PER_WRITE_CALLBACK) by reflexivity.
  split.
  - intros Hm a d Hin. apply in_app_or in Hin. destruct Hin as [Hin|Hin];
      apply in_map_iff in Hin; destruct Hin as [x [Ex Hx]]; [discriminate|].
    injection Ex as <- _.
    apply py_range_In in Hx; [|exact HW|apply rounddown_multiple_mod; exact HW].
    unfold roundup_multiple in Hx. rewrite Hm in Hx. cbn [Z.eqb] in Hx.
    destruct Hx as [Hx0 [_ Hlt]].
    pose proof (Z.div_mod x ADDRS_PER_WRITE_CALLBACK ltac:(lia)).
    pose proof (Z.div_mod (maxaddr ihx) ADDRS_PER_WRITE_CALLBACK ltac:(lia)).
    unfold ADDRS_PER_WRITE_CALLBACK in *. nia.
  - intros Hm a Hin. apply in_app_or in Hin. destruct Hin as [Hin|Hin];
      apply in_map_iff in Hin; destruct Hin as [x [Ex Hx]]; [|discriminate].
    injection Ex as <-.
    apply py_range_In in Hx; [|exact HS|apply rounddown_multiple_mod; exact HS].
    unfold roundup_multiple in Hx. rewrite Hm in Hx. cbn [Z.eqb] in Hx.
    destruct Hx as [Hx0 [_ Hlt]].
    pose proof (Z.div_mod x SECTORSIZE ltac:(lia)).
    pose proof (Z.div_mod (maxaddr ihx) SECTORSIZE ltac:(lia)).
    change SECTORSIZE with 65536 in *. nia.
Qed.

(** X12 [run] with [_add_to_expected_callbacks]: the admission gate bounds
    the outstanding operations. In any run where every queued command
    announces at most [K] completions, [flash_operations_pending] stays
    below [PENDING_COMMANDS_LIMIT + K], whatever the callbacks do. *)
Theorem admission_bounds_pending K s :
  0 <= K -> run_with_costs K s ->
  flash_operations_pending s < PENDING_COMMANDS_LIMIT + K.
Proof.
  intros HK R. induction R as [|a s s' R IH Step Fs'].
  - change (flash_operations_pending init_flash) with 0.
    unfold PENDING_COMMANDS_LIMIT. lia.
  - pose proof (run_with_costs_queue K s R) as Fs.
    destruct Step as [s|c s|s|s|data s|data s].
    + destruct (wants_to_exit s) eqn:Ex.
      { destruct (run_step_idle s (or_introl Ex)) as [b E]. rewrite E. exact IH. }
      destruct (command_queue s) as [|c rest] eqn:Q.
      { destruct (run_step_idle s (or_intror (or_introl Q))) as [b E].
        rewrite E. exact IH. }
      destruct (Z.lt_ge_cases (flash_operations_pending s) PENDING_COMMANDS_LIMIT)
        as [P|P].
      * rewrite (run_step_pop s c rest Ex Q P).
        pose proof (dispatch_pending_cost c (set_command_queue rest s)) as Dc.
        inversion Fs as [|? ? Hc _]; subst.
        change (flash_operations_pending (set_command_queue rest s))
          with (flash_operations_pending s) in Dc.
        lia.
      * destruct (run_step_idle s (or_intror (or_intror P))) as [b E].
        rewrite E. exact IH.
    + change (flash_operations_pending (final_state (_schedule_command c s)))
        with (flash_operations_pending s). exact IH.
    + change (flash_operations_pending (final_state (stop s)))
        with (flash_operations_pending s). exact IH.
    + rewrite sanity_check_state. exact IH.
    + cbv beta iota delta [final_state _flash_done_callback modify
        set_done_callbacks_received flash_operations_pending] in *.
      cbn [total_callbacks_expected done_callbacks_received read_callbacks_received].
      lia.
    + pose proof (read_callback_counters data s) as H. cbn zeta in H.
      unfold flash_operations_pending in *. lia.
Qed.

Lemma write_loop_bad_addr fuel addr data s :
  ~ (0 <= addr < 2 ^ 32) -> write_loop fuel addr data s = Raise StructError s.
Proof.
  intros H. destruct fuel; cbn [write_loop]; [apply send_write_chunk_fail; exact H|].
  destruct (_ >? _).
  - unfold bind at 1. rewrite send_write_chunk_fail by exact H. reflexivity.
  - apply send_write_chunk_fail. exact H.
Qed.

Lemma sanity_after_delivery frs d s0 :
  frs <> [] -> d = concat (map (fun f => map Z_of_byte (snd f)) frs) ->
  let st := with_fragments (map fragment_extent frs) d s0 in
  read_cb_sanity_check st = Ok tt st <-> contiguous (map fragment_extent frs).
Proof.
  intros Hne Hd. cbn zeta.
  destruct frs as [|[a bs] frs']; [congruence|].
  assert (Sm : sum (map snd (map fragment_extent ((a, bs) :: frs')))
               = Z.of_nat (length d)).
  { rewrite map_map, Hd. apply sum_fragment_lens. }
  change (map fragment_extent ((a, bs) :: frs'))
    with ((a, Z.of_nat (length bs)) :: map fragment_extent frs') in *.
  pose proof (sanity_check_fragments (map fragment_extent frs') a
                (Z.of_nat (length bs)) d s0) as SC.
  cbn zeta in SC. rewrite SC.
  destruct (list_eq_dec Z.eq_dec _ _) as [Eq|Ne].
  - rewrite Sm, Z.eqb_refl. split; [intros _|reflexivity].
    apply addrs_expected_iff_contiguous. exact Eq.
  - split; [discriminate|]. intros C.
    apply addrs_expected_iff_contiguous in C. contradiction.
Qed.

(** X13 [_write]: a write is not atomic. When the start address fits but
    the next chunk's address would not (the start is within 128 of 2^32)
    and the payload has more than 128 bytes, the first 128 bytes are
    announced and sent before struct.error is raised. *)
Theorem write_overflow_sends_first_chunk s addr data :
  2 ^ 32 - ADDRS_PER_WRITE_CALLBACK <= addr < 2 ^ 32 -> (128 < length data)%nat ->
  exists p,
    dispatch (Cmd_write addr data) s
    = Raise StructError (bump s 1 [AddExpected 1; SendMessage 240 p])
    /\ wr_addr p = addr /\ wr_data p = firstn 128 data.
Proof.
  intros Ha Hl. unfold dispatch, _write.
  destruct (length data) as [|n] eqn:L; [lia|].
  cbn [write_loop]. rewrite L.
  replace (Z.of_nat (S n) >? ADDRS_PER_WRITE_CALLBACK) with true
    by (symmetry; apply Z.gtb_lt; unfold ADDRS_PER_WRITE_CALLBACK; lia).
  change (Z.to_nat ADDRS_PER_WRITE_CALLBACK) with 128%nat.
  destruct (send_write_chunk_ok s addr (firstn 128 data) ltac:(unfold ADDRS_PER_WRITE_CALLBACK in Ha; lia)
              ltac:(rewrite length_firstn; lia)) as [p [E [_ [A D]]]].
  exists p. unfold bind at 1. rewrite E.
  rewrite write_loop_bad_addr by (unfold ADDRS_PER_WRITE_CALLBACK in *; lia).
  split; [reflexivity|]. split; assumption.
Qed.

(** X14 [_read], [_flash_read_callback] and [read_cb_sanity_check]: a read
    of [len] bytes at a valid address, answered by ceil(len/16) well-formed
    fragments, brings [flash_operations_pending] back to its value before
    the read; the accumulator then holds the fragments' data in order, and
    the sanity check passes exactly when the fragments are contiguous. *)
Theorem read_answered_by_fragments addr len frs s :
  0 <= addr < 2 ^ 32 -> 0 <= len < 2 ^ 32 -> frs <> [] ->
  Forall (fun f => 0 <= fst f < 2 ^ 24 /\ (length (snd f) < 256)%nat) frs ->
  Z.of_nat (length frs) = ceil_div len ADDRS_PER_READ_CALLBACK ->
  let s1 := final_state (dispatch (Cmd_read addr len) s) in
  let s2 := final_state
              (deliver_fragments (map (fun f => fragment_msg (fst f) (snd f)) frs) s1) in
  flash_operations_pending s2 = flash_operations_pending s
  /\ rd_cb_data s2 = concat (map (fun f => map Z_of_byte (snd f)) frs)
  /\ (read_cb_sanity_check s2 = Ok tt s2 <-> contiguous (map fragment_extent frs)).
Proof.
  intros Ha Hl Hne HF Hn. cbn zeta.
  destruct (read_dispatch s addr len Ha Hl) as [msg [E _]]. rewrite E.
  cbn [final_state].
  rewrite deliver_as_fragments by (reflexivity || exact HF).
  split; [|split; [reflexivity|]].
  - unfold flash_operations_pending, with_fragments.
    cbn [total_callbacks_expected done_callbacks_received read_callbacks_received
         set_rd_cb_data set_rd_cb_lens set_rd_cb_addrs set_read_callbacks_received].
    lia.
  - apply sanity_after_delivery; [exact Hne | reflexivity].
Qed.

(** X15 [read_cb_sanity_check]: the check only reads the object; whether it
    passes or raises, the state is left exactly as it was. *)
Theorem sanity_check_is_read_only s :
  read_cb_sanity_check s = Ok tt s \/ exists e, read_cb_sanity_check s = Raise e s.
Proof.
  unfold read_cb_sanity_check. run_m.
  destruct (rd_cb_addrs s) as [|a0 rest]; cbn [nth_error]; [eauto|].
  destruct (list_eq_dec Z.eq_dec _ _); cbn [negb]; [|eauto].
  destruct (_ =? _); cbn [negb]; eauto.
Qed.

(** *** Witnesses of the extra properties *)

Lemma rounddown_multiple_bounds_witness :
  0 < SECTORSIZE
  /\ (rounddown_multiple 70000 SECTORSIZE mod SECTORSIZE = 0
      /\ 70000 - SECTORSIZE < rounddown_multiple 70000 SECTORSIZE <= 70000).
Proof.
  split; [reflexivity|]. apply rounddown_multiple_bounds. reflexivity.
Defined.

Lemma roundup_multiple_bounds_witness :
  0 < ADDRS_PER_WRITE_CALLBACK
  /\ (roundup_multiple 1000 ADDRS_PER_WRITE_CALLBACK mod ADDRS_PER_WRITE_CALLBACK = 0
      /\ 1000 <= roundup_multiple 1000 ADDRS_PER_WRITE_CALLBACK
         < 1000 + ADDRS_PER_WRITE_CALLBACK).
Proof.
  split; [reflexivity|]. apply roundup_multiple_bounds. reflexivity.
Defined.

Lemma stop_is_permanent_witness :
  let s0 := final_state (stop init_flash) in
  let s1 := final_state (_schedule_command (Cmd_erase_sector 0) s0) in
  clos_refl_trans_1n Flash any_step s0 s1
  /\ (wants_to_exit s1 = true /\ run_step s1 = Ok false s1).
Proof.
  cbn zeta.
  assert (H : clos_refl_trans_1n Flash any_step (final_state (stop init_flash))
                (final_state (_schedule_command (Cmd_erase_sector 0)
                                (final_state (stop init_flash))))).
  { eapply Relation_Operators.rt1n_trans; [exists Client; apply Step_schedule | apply rt1n_refl]. }
  split; [exact H | exact (stop_is_permanent init_flash _ H)].
Defined.

Lemma callbacks_left_in_acked_runs_witness :
  let s1 := final_state (_schedule_command (Cmd_erase_sector 0) init_flash) in
  acked_reachable s1
  /\ (Z.of_nat (length (command_queue s1)) <= flash_callbacks_left s1
      /\ (flash_callbacks_left s1 = 0
          <-> command_queue s1 = [] /\ flash_operations_pending s1 = 0)).
Proof.
  cbn zeta.
  assert (H : acked_reachable
                (final_state (_schedule_command (Cmd_erase_sector 0) init_flash))).
  { eapply Reach_step; [apply Reach_init | apply Step_schedule | discriminate]. }
  split; [exact H | exact (callbacks_left_in_acked_runs _ H)].
Defined.

Lemma schedule_does_not_overtake_witness :
  let s := set_command_queue [Cmd_erase_sector 0] init_flash in
  (wants_to_exit s = false /\ command_queue s = [Cmd_erase_sector 0]
   /\ flash_operations_pending s < PENDING_COMMANDS_LIMIT)
  /\ final_state (run_step (final_state (_schedule_command (Cmd_erase_sector 65536) s)))
     = final_state (dispatch (Cmd_erase_sector 0)
                      (set_command_queue ([] ++ [Cmd_erase_sector 65536]) s)).
Proof.
  cbn zeta. split; [split; [reflexivity|split; reflexivity]|].
  apply schedule_does_not_overtake; reflexivity.
Defined.

Lemma failed_command_is_dropped_witness :
  let s := set_command_queue [Cmd_erase_sector (2 ^ 32)] init_flash in
  let s' := set_command_queue [] init_flash in
  (wants_to_exit s = false /\ command_queue s = [Cmd_erase_sector (2 ^ 32)]
   /\ flash_operations_pending s < PENDING_COMMANDS_LIMIT
   /\ run_step s = Raise StructError s')
  /\ (dispatch (Cmd_erase_sector (2 ^ 32)) (set_command_queue [] s) = Raise StructError s'
      /\ command_queue s' = []).
Proof.
  cbn zeta. split; [split; [reflexivity|split; [reflexivity|split; reflexivity]]|].
  apply failed_command_is_dropped; reflexivity.
Defined.

Lemma write_chunk_sizes_witness :
  (0 <= 0 < 2 ^ 32 /\ 0 + Z.of_nat (length (repeat x00 200)) <= 2 ^ 32
   /\ repeat x00 200 <> [])
  /\ exists ps,
       dispatch (Cmd_write 0 (repeat x00 200)) init_flash
       = Ok tt (bump init_flash (Z.of_nat (length ps)) (announced 1 240 ps))
       /\ Forall (fun p => length (wr_data p) = 128%nat) (removelast ps)
       /\ (1 <= length (wr_data (last ps [])) <= 128)%nat.
Proof.
  split; [rewrite repeat_length; split; [lia|split; [lia|discriminate]]|].
  apply write_chunk_sizes; [lia | rewrite repeat_length; lia | discriminate].
Defined.

Lemma delivered_fragments_check_witness :
  let frs := [(4096, [x01; x02]); (4098, [x03])] in
  (frs <> [] /\ rd_cb_addrs init_flash = [] /\ rd_cb_lens init_flash = []
   /\ rd_cb_data init_flash = []
   /\ Forall (fun f => 0 <= fst f < 2 ^ 24 /\ (length (snd f) < 256)%nat) frs)
  /\ (let s' := final_state
                  (deliver_fragments (map (fun f => fragment_msg (fst f) (snd f)) frs)
                     init_flash) in
      rd_cb_addrs s' = map fst frs
      /\ rd_cb_data s' = concat (map (fun f => map Z_of_byte (snd f)) frs)
      /\ read_callbacks_received s' = read_callbacks_received init_flash
                                      + Z.of_nat (length frs)
      /\ (read_cb_sanity_check s' = Ok tt s' <-> contiguous (map fragment_extent frs))).
Proof.
  cbn zeta.
  assert (HF : Forall (fun f => 0 <= fst f < 2 ^ 24 /\ (length (snd f) < 256)%nat)
                 [(4096, [x01; x02]); (4098, [x03])]).
  { repeat constructor; cbn [fst snd length]; lia. }
  split; [split; [discriminate|split; [reflexivity|split; [reflexivity|split; [reflexivity|exact HF]]]]|].
  apply delivered_fragments_check; [discriminate|reflexivity|reflexivity|reflexivity|exact HF].
Defined.

Lemma admission_bounds_pending_witness :
  let s1 := final_state (_schedule_command (Cmd_erase_sector 0) init_flash) in
  (0 <= 1 /\ run_with_costs 1 s1)
  /\ flash_operations_pending s1 < PENDING_COMMANDS_LIMIT + 1.
Proof.
  cbn zeta.
  assert (H : run_with_costs 1
                (final_state (_schedule_command (Cmd_erase_sector 0) init_flash))).
  { eapply RC_step; [apply RC_init | apply Step_schedule |].
    constructor; [|constructor]. unfold cost. cbn. lia. }
  split; [split; [lia|exact H]|].
  apply admission_bounds_pending; [lia | exact H].
Defined.

Lemma write_overflow_sends_first_chunk_witness :
  (2 ^ 32 - ADDRS_PER_WRITE_CALLBACK <= 2 ^ 32 - 64 < 2 ^ 32
   /\ (128 < length (repeat x00 200))%nat)
  /\ exists p,
       dispatch (Cmd_write (2 ^ 32 - 64) (repeat x00 200)) init_flash
       = Raise StructError (bump init_flash 1 [AddExpected 1; SendMessage 240 p])
       /\ wr_addr p = 2 ^ 32 - 64 /\ wr_data p = firstn 128 (repeat x00 200).
Proof.
  split; [unfold ADDRS_PER_WRITE_CALLBACK; rewrite repeat_length; split; lia|].
  apply write_overflow_sends_first_chunk;
    [unfold ADDRS_PER_WRITE_CALLBACK; lia | rewrite repeat_length; lia].
Defined.

Lemma read_answered_by_fragments_witness :
  let frs := [(4096, repeat x00 16); (4112, repeat x00 4)] in
  (0 <= 4096 < 2 ^ 32 /\ 0 <= 20 < 2 ^ 32 /\ frs <> []
   /\ Forall (fun f => 0 <= fst f < 2 ^ 24 /\ (length (snd f) < 256)%nat) frs
   /\ Z.of_nat (length frs) = ceil_div 20 ADDRS_PER_READ_CALLBACK)
  /\ (let s1 := final_state (dispatch (Cmd_read 4096 20) init_flash) in
      let s2 := final_state
                  (deliver_fragments (map (fun f => fragment_msg (fst f) (snd f)) frs) s1) in
      flash_operations_pending s2 = flash_operations_pending init_flash
      /\ rd_cb_data s2 = concat (map (fun f => map Z_of_byte (snd f)) frs)
      /\ (read_cb_sanity_check s2 = Ok tt s2 <-> contiguous (map fragment_extent frs))).
Proof.
  cbn zeta.
  assert (HF : Forall (fun f => 0 <= fst f < 2 ^ 24 /\ (length (snd f) < 256)%nat)
                 [(4096, repeat x00 16); (4112, repeat x00 4)]).
  { repeat constructor; cbn [fst snd]; rewrite ?repeat_length; lia. }
  split; [split; [lia|split; [lia|split; [discriminate|split; [exact HF|reflexivity]]]]|].
  apply read_answered_by_fragments; [lia|lia|discriminate|exact HF|reflexivity].
Defined.
